(** * Superstore retail sales report: the transform-and-aggregate core

    A shallow embedding of [analyze_sales_data.py]: the loader
    ([load_data]), the cleaner ([clean_data]), the aggregate views
    ([compute_kpis], [monthly_trend], [revenue_by_region],
    [top_customers], [yearly_trend], [yoy_pivot]) and the guards of the
    growth chart and of the text report.

    Modelling conventions.
    - A table is the list of its rows, in index order.  A row is a record
      with one field per column the script reads or writes, plus the
      columns it only passes through.
    - Sales amounts are finite, exact rationals ([Qc]), and sums and means
      are exact.  Rounding of binary floating point, and the wrap-around of
      a sum of 64-bit integers, are outside the model: a statement about a
      sum or a mean holds of the code as far as its arithmetic is exact.
      The not-a-number and the two infinities that division produces are
      kept ([float]).
    - The two text parsers of pandas ([pd.to_numeric] and [pd.to_datetime])
      and [pd.read_csv] are parameters of the development.  The date
      parser stands for what [pd.to_datetime] does to the cells of the
      column it is given: from pandas 2.0 the format is inferred from the
      first date of that column, so two tables may have different parsers,
      and nothing here compares the cleaning of two different tables.
    - A call that ends in an exception is modelled as such ([load_result],
      [outcome], [plot_result]); which exception the growth block of the
      report raises differs between pandas versions and is not modelled.
      The drawing calls of seaborn and matplotlib are a parameter.
    - Library calls behave as in pandas 1 and 2.  In particular
      [astype(str)] on a period column writes the missing period as the
      text [NaT], [groupby] leaves out the rows whose key is missing and
      orders the groups by key, and the sums skip missing values. *)

From Stdlib Require Import QArith Qcanon Ascii String.
From stdpp Require Import base numbers list sorting strings gmap.

Local Open Scope string_scope.
Local Open Scope Z_scope.

(** ** Cells, rows and tables *)

(** A moment in time as [pd.Timestamp] shows it: calendar year, month, day
    and the nanoseconds elapsed within the day. *)
Record Timestamp := mkTimestamp {
  ts_year : Z;
  ts_month : Z;
  ts_day : Z;
  ts_nanos : Z
}.

(** A cell of the [Sales] column: missing, still text as read from the
    file, or a number. *)
Inductive num_cell :=
| NaN
| NumText (s : string)
| Number (q : Qc).

(** A cell of the [Order_Date] column: missing ([NaT]), still text, or a
    timestamp. *)
Inductive date_cell :=
| NaT
| DateText (s : string)
| Stamp (t : Timestamp).

(** One row.  [Year], [Month] and [Order_Month] are the columns that
    [clean_data] assigns; a table that does not have them yet holds [None]
    there.  [None] in a text or number column is pandas' missing value. *)
Record row := mkRow {
  Order_Date : date_cell;
  Sales : num_cell;
  Region : option string;
  Customer_ID : option string;
  Customer_Name : option string;
  passthrough : list (option string);
  Year : option Z;
  Month : option Z;
  Order_Month : option string
}.

Abbreviation DataFrame := (list row).

#[global] Instance Timestamp_eq_dec : EqDecision Timestamp.
Proof. solve_decision. Defined.
#[global] Instance num_cell_eq_dec : EqDecision num_cell.
Proof. solve_decision. Defined.
#[global] Instance date_cell_eq_dec : EqDecision date_cell.
Proof. solve_decision. Defined.
#[global] Instance row_eq_dec : EqDecision row.
Proof. solve_decision. Defined.

(** Column assignment [df[c] = v], one row at a time. *)
Definition set_Sales (v : num_cell) (r : row) : row :=
  mkRow (Order_Date r) v (Region r) (Customer_ID r) (Customer_Name r)
        (passthrough r) (Year r) (Month r) (Order_Month r).
Definition set_Order_Date (v : date_cell) (r : row) : row :=
  mkRow v (Sales r) (Region r) (Customer_ID r) (Customer_Name r)
        (passthrough r) (Year r) (Month r) (Order_Month r).
Definition set_Year (v : option Z) (r : row) : row :=
  mkRow (Order_Date r) (Sales r) (Region r) (Customer_ID r) (Customer_Name r)
        (passthrough r) v (Month r) (Order_Month r).
Definition set_Month (v : option Z) (r : row) : row :=
  mkRow (Order_Date r) (Sales r) (Region r) (Customer_ID r) (Customer_Name r)
        (passthrough r) (Year r) v (Order_Month r).
Definition set_Order_Month (v : option string) (r : row) : row :=
  mkRow (Order_Date r) (Sales r) (Region r) (Customer_ID r) (Customer_Name r)
        (passthrough r) (Year r) (Month r) v.

(** ** Calendar accessors *)

Definition digit (n : Z) : ascii := ascii_of_nat (48 + Z.to_nat (n mod 10)).

(** [%Y-%m]: four digits of year, a dash, two digits of month.  pandas
    timestamps lie between the years 1677 and 2262. *)
Definition year_month_key (y m : Z) : string :=
  String (digit (y / 1000)) (String (digit (y / 100))
  (String (digit (y / 10)) (String (digit y)
  (String "-" (String (digit (m / 10)) (String (digit m) EmptyString)))))).

Definition period_str (t : Timestamp) : string :=
  year_month_key (ts_year t) (ts_month t).

(** [.dt.year] and [.dt.month] of a datetime cell; missing for [NaT].  The
    accessor is only ever applied to the result of [to_datetime], which
    holds no text. *)
Definition dt_year (c : date_cell) : option Z :=
  match c with Stamp t => Some (ts_year t) | _ => None end.
Definition dt_month (c : date_cell) : option Z :=
  match c with Stamp t => Some (ts_month t) | _ => None end.

(** [.dt.to_period("M").astype(str)]: the conversion to text turns the
    missing period into the three letters [NaT]; the result is a text
    cell in every row. *)
Definition dt_to_period_M_str (c : date_cell) : option string :=
  match c with Stamp t => Some (period_str t) | _ => Some "NaT" end.

(** ** Cleaning *)

(** [df.dropna(subset=["Sales"])]. *)
Definition isna (c : num_cell) : bool :=
  match c with NaN => true | _ => false end.
Definition dropna_Sales (df : DataFrame) : DataFrame :=
  filter (λ r, isna (Sales r) = false) df.

(** [df.drop_duplicates()]: the first row of every group of equal rows is
    kept, in index order.  Missing values compare equal to each other. *)
Fixpoint drop_duplicates_from (seen : list row) (df : DataFrame) : DataFrame :=
  match df with
  | [] => []
  | r :: df' =>
      if decide (r ∈ seen) then drop_duplicates_from seen df'
      else r :: drop_duplicates_from (r :: seen) df'
  end.
Definition drop_duplicates (df : DataFrame) : DataFrame :=
  drop_duplicates_from [] df.

Section Cleaner.
(** [pd.to_numeric] and [pd.to_datetime] on one text cell of the column
    being converted; [None] is a text that does not parse.  The date
    parser is the one of the column at hand (pandas 2 infers the format
    from its first date); another column may come with another parser. *)
Variable parse_number : string → option Qc.
Variable parse_datetime : string → option Timestamp.

(** [pd.to_numeric(_, errors="coerce")], cell by cell. *)
Definition to_numeric (c : num_cell) : num_cell :=
  match c with
  | NaN => NaN
  | NumText s => match parse_number s with Some q => Number q | None => NaN end
  | Number q => Number q
  end.

(** [pd.to_datetime(_, errors="coerce")], cell by cell, with the parser
    of the column. *)
Definition to_datetime (c : date_cell) : date_cell :=
  match c with
  | NaT => NaT
  | DateText s => match parse_datetime s with Some t => Stamp t | None => NaT end
  | Stamp t => Stamp t
  end.

(** The statements of [clean_data], each as a function on tables. *)
Definition assign_Sales (df : DataFrame) : DataFrame :=
  fmap (λ r, set_Sales (to_numeric (Sales r)) r) df.
Definition assign_Order_Date (df : DataFrame) : DataFrame :=
  fmap (λ r, set_Order_Date (to_datetime (Order_Date r)) r) df.
Definition assign_Year (df : DataFrame) : DataFrame :=
  fmap (λ r, set_Year (dt_year (Order_Date r)) r) df.
Definition assign_Month (df : DataFrame) : DataFrame :=
  fmap (λ r, set_Month (dt_month (Order_Date r)) r) df.
Definition assign_Order_Month (df : DataFrame) : DataFrame :=
  fmap (λ r, set_Order_Month (dt_to_period_M_str (Order_Date r)) r) df.

Definition clean_data (df : DataFrame) : DataFrame :=
  let df := df (* df.copy() *) in
  let df := assign_Sales df in
  let df := dropna_Sales df in
  let df := assign_Order_Date df in
  let df := assign_Year df in
  let df := assign_Month df in
  let df := assign_Order_Month df in
  drop_duplicates df.

(** What the cleaner makes of one row that it keeps. *)
Definition cleaned_row (r : row) : row :=
  let d := to_datetime (Order_Date r) in
  mkRow d (to_numeric (Sales r)) (Region r) (Customer_ID r) (Customer_Name r)
        (passthrough r) (dt_year d) (dt_month d) (dt_to_period_M_str d).
End Cleaner.

(** ** Floating-point results *)

(** What a float64 cell can hold once a division has been made: a finite
    value, one of the two infinities, or not-a-number, which pandas treats
    as missing.  The model has a single zero, the positive one. *)
Inductive float :=
| Finite (q : Qc)
| Inf
| NegInf
| NotANumber.

#[global] Instance float_eq_dec : EqDecision float.
Proof. solve_decision. Defined.

Definition fsub (a b : float) : float :=
  match a, b with
  | NotANumber, _ | _, NotANumber => NotANumber
  | Finite x, Finite y => Finite (x - y)%Qc
  | Finite _, Inf => NegInf
  | Finite _, NegInf => Inf
  | Inf, Inf => NotANumber
  | Inf, _ => Inf
  | NegInf, NegInf => NotANumber
  | NegInf, _ => NegInf
  end.

Definition fdiv (a b : float) : float :=
  match a, b with
  | NotANumber, _ | _, NotANumber => NotANumber
  | Finite x, Finite y =>
      if decide (y = 0%Qc) then
        if decide (x = 0%Qc) then NotANumber
        else if decide (0 < x)%Qc then Inf else NegInf
      else Finite (x / y)%Qc
  | Finite _, _ => Finite 0%Qc
  | Inf, Finite y => if decide (0 ≤ y)%Qc then Inf else NegInf
  | NegInf, Finite y => if decide (0 ≤ y)%Qc then NegInf else Inf
  | _, _ => NotANumber
  end.

Definition fmul (a b : float) : float :=
  match a, b with
  | NotANumber, _ | _, NotANumber => NotANumber
  | Finite x, Finite y => Finite (x * y)%Qc
  | Finite x, Inf | Inf, Finite x =>
      if decide (x = 0%Qc) then NotANumber
      else if decide (0 < x)%Qc then Inf else NegInf
  | Finite x, NegInf | NegInf, Finite x =>
      if decide (x = 0%Qc) then NotANumber
      else if decide (0 < x)%Qc then NegInf else Inf
  | Inf, Inf | NegInf, NegInf => Inf
  | Inf, NegInf | NegInf, Inf => NotANumber
  end.

(** [pd.isna] on a cell of an object column that holds floats or Python's
    [None]. *)
Definition is_null (c : option float) : bool :=
  match c with
  | None | Some NotANumber => true
  | Some _ => false
  end.

(** ** Sums and grouped sums *)

Definition Qcsum (l : list Qc) : Qc := foldr Qcplus 0%Qc l.

(** The number in a [Sales] cell.  Every sum skips the missing cells; text
    does not occur in the column once it has been converted. *)
Definition sales_value (r : row) : option Qc :=
  match Sales r with Number q => Some q | _ => None end.

(** [df["Sales"].sum()], as an exact sum.  pandas adds a column of 64-bit
    integers with wrap-around and a column of floats with rounding; both
    are left out. *)
Definition sum_Sales (df : DataFrame) : Qc := Qcsum (omap sales_value df).

(** [df["Sales"].mean()]: not-a-number when there is nothing to average,
    else the exact mean.  pandas computes the mean in floating point, also
    for a column of integers, so the [mean] and the [sum] of the code are
    two computations and need not agree to the last digit. *)
Definition mean_Sales (df : DataFrame) : float :=
  match omap sales_value df with
  | [] => NotANumber
  | l => Finite (Qcsum l / Qc_of_Z (Z.of_nat (length l)))%Qc
  end.

(** [Series.nunique()]: the distinct values that are not missing. *)
Definition nunique {A} `{EqDecision A} (col : list (option A)) : nat :=
  length (remove_dups (omap id col)).

Section GroupBy.
Context {K : Type} `{EqDecision K}.
Variable le : relation K.
Context `{∀ x y, Decision (le x y)}.

(** The group labels of [df.groupby(key)]: the distinct key values in
    ascending order; rows whose key is missing belong to no group. *)
Definition group_keys (key : row → option K) (df : DataFrame) : list K :=
  merge_sort le (remove_dups (omap key df)).

(** [df.groupby(key)["Sales"].sum().reset_index()]. *)
Definition groupby_sum (key : row → option K) (df : DataFrame) : list (K * Qc) :=
  fmap (λ k, (k, sum_Sales (filter (λ r, key r = Some k) df)))
      (group_keys key df).

(** The rows that belong to one of the groups labelled [ks]. *)
Definition in_groups (key : row → option K) (ks : list K) (r : row) : Prop :=
  ∃ k, key r = Some k ∧ k ∈ ks.

#[global] Instance in_groups_dec key ks r : Decision (in_groups key ks r).
Proof.
  unfold in_groups. destruct (key r) as [k|].
  - destruct (decide (k ∈ ks));
      [left; eauto | right; intros (? & [= <-] & ?); done].
  - right. intros (? & [=] & _).
Defined.

(** [sort_values] on the label column, ascending. *)
Definition sort_by_label (t : list (K * Qc)) : list (K * Qc) :=
  merge_sort (λ a b, le a.1 b.1) t.
End GroupBy.

(** [sort_values("Sales", ascending=False)].  Which of two rows with equal
    sums comes first is the sort routine's business; nothing below depends
    on it. *)
Definition sales_ge {K} (a b : K * Qc) : Prop := (b.2 ≤ a.2)%Qc.
#[global] Instance sales_ge_dec {K} : RelDecision (@sales_ge K).
Proof. intros a b. unfold sales_ge. apply _. Defined.
Definition sort_by_Sales_desc {K} (t : list (K * Qc)) : list (K * Qc) :=
  merge_sort sales_ge t.

(** [DataFrame.head(n)]: the first [n] rows, and for a negative [n] all
    rows but the last [-n]. *)
Definition head {A} (n : Z) (t : list A) : list A :=
  if decide (0 ≤ n) then take (Z.to_nat n) t
  else take (length t - Z.to_nat (- n)) t.

(** ** KPIs and the aggregate views *)

Record KPIs := mkKPIs {
  Total_Sales : Qc;
  Total_Orders : nat;
  Unique_Customers : nat;
  Average_Order_Value : float
}.

(** [compute_kpis]: the four entries of the dictionary, each by its own
    pandas call. *)
Definition compute_kpis (df : DataFrame) : KPIs :=
  {| Total_Sales := sum_Sales df;
     Total_Orders := length df;
     Unique_Customers := nunique (fmap Customer_ID df);
     Average_Order_Value := mean_Sales df |}.

Definition monthly_trend (df : DataFrame) : list (string * Qc) :=
  let monthly := groupby_sum String.le Order_Month df in
  sort_by_label String.le monthly.

Definition revenue_by_region (df : DataFrame) : list (string * Qc) :=
  sort_by_Sales_desc (groupby_sum String.le Region df).

Definition top_customers (df : DataFrame) (n : Z) : list (string * Qc) :=
  head n (sort_by_Sales_desc (groupby_sum String.le Customer_Name df)).

Definition default_n : Z := 10.

(** The pair of keys [["Year", "Month"]], ordered by year and then month;
    a row with either one missing belongs to no group. *)
Definition Year_Month (r : row) : option (Z * Z) :=
  match Year r, Month r with
  | Some y, Some m => Some (y, m)
  | _, _ => None
  end.

Definition year_month_le (a b : Z * Z) : Prop :=
  a.1 < b.1 ∨ (a.1 = b.1 ∧ a.2 ≤ b.2).

#[global] Instance year_month_le_dec : RelDecision year_month_le.
Proof. intros a b. unfold year_month_le. apply _. Defined.

Definition yearly_trend (df : DataFrame) : list (Z * Z * Qc) :=
  let grouped := groupby_sum year_month_le Year_Month df in
  sort_by_label year_month_le grouped.

(** ** The year-by-month matrix *)

(** The result of [pivot_table]: the month index, one float column per
    year, and the column labelled [YoY_Growth_%] once it has been assigned
    ([None]: the table has no column of that label).  A cell of the growth
    column is a float or Python's [None]. *)
Record Pivot := mkPivot {
  index : list Z;
  year_columns : list (Z * list float);
  YoY_Growth : option (list (option float))
}.

(** The sum of the rows of one (month, year) cell; not-a-number for a
    combination that has no row. *)
Definition pivot_cell (df : list (Z * Z * Qc)) (m y : Z) : float :=
  match filter (λ x, x.1 = (y, m)) df with
  | [] => NotANumber
  | g => Finite (Qcsum (fmap snd g))
  end.

(** The labels of a pivot axis: the distinct values of the column, in
    ascending order. *)
Definition Month_labels (df : list (Z * Z * Qc)) : list Z :=
  merge_sort Z.le (remove_dups ((λ x, x.1.2) <$> df)).
Definition Year_labels (df : list (Z * Z * Qc)) : list Z :=
  merge_sort Z.le (remove_dups ((λ x, x.1.1) <$> df)).

(** [df.pivot_table(values="Sales", index="Month", columns="Year",
    aggfunc="sum")] on a table with the columns Year, Month and Sales. *)
Definition pivot_table (df : list (Z * Z * Qc)) : Pivot :=
  let months := Month_labels df in
  let years := Year_labels df in
  {| index := months;
     year_columns := fmap (λ y, (y, fmap (λ m, pivot_cell df m y) months)) years;
     YoY_Growth := None |}.

(** [pivot[y]] for a year label [y]; the labels asked for below are labels
    of the table. *)
Definition getitem (y : Z) (p : Pivot) : list float :=
  match filter (λ c, c.1 = y) (year_columns p) with
  | c :: _ => c.2
  | [] => []
  end.

(** [pivot["YoY_Growth_%"] = col]. *)
Definition set_YoY_Growth (col : list (option float)) (p : Pivot) : Pivot :=
  {| index := index p; year_columns := year_columns p; YoY_Growth := Some col |}.

(** [(latest - prior) / prior * 100] on one pair of cells. *)
Definition growth (latest prior : float) : float :=
  fmul (fdiv (fsub latest prior) prior) (Finite (Qc_of_Z 100)).

(** [yoy_pivot]: [years[-1]] and [years[-2]] are the first two labels of
    the reversed sorted list, which exist exactly when [len(years) >= 2]. *)
Definition yoy_pivot (df : list (Z * Z * Qc)) : Pivot :=
  let pivot := pivot_table df in
  let years := merge_sort Z.le (fmap fst (year_columns pivot)) in
  match reverse years with
  | latest :: prior :: _ =>
      set_YoY_Growth
        (zip_with (λ a b, Some (growth a b))
                  (getitem latest pivot) (getitem prior pivot)) pivot
  | _ => set_YoY_Growth (replicate (length (index pivot)) None) pivot
  end.

(** ** The growth chart and the text report *)

(** A chart written to disk: its path and the bars it shows. *)
Record Figure := mkFigure {
  fig_path : string;
  fig_bars : list (Z * option float)
}.

(** How a call that may raise ends. *)
Inductive outcome (A : Type) :=
| Returns (a : A)
| Raises.
Arguments Returns {A} a.
Arguments Raises {A}.

(** How a call of [plot_yoy_growth] ends: it returns at its guard, it
    saves the figure, or an exception of the drawing calls leaves it. *)
Inductive plot_result :=
| Skipped
| Saved (fig : Figure)
| PlotError.

Section Renderer.
(** The drawing calls ([sns.barplot] down to [plt.savefig]) on the bars
    they are given: whether they save the figure or raise.  What seaborn
    makes of missing values or of no bars at all differs between its
    versions and is not modelled. *)
Variable draws : list (Z * option float) → bool.

Definition plot_yoy_growth (pivot_df : Pivot) (path : string) : plot_result :=
  match YoY_Growth pivot_df with
  | None => Skipped
  | Some col =>
      let bars := zip (index pivot_df) col in
      if draws bars then Saved {| fig_path := path; fig_bars := bars |}
      else PlotError
  end.
End Renderer.

(** The blocks of the text report, in the order they are appended; number
    formatting and the statistics of the growth block are left to the
    values they are computed from. *)
Inductive report_block :=
| Summary (kpis : KPIs)
| TopRegion (r : string * Qc)
| TopCustomer (c : string * Qc)
| YoYOverview (growth_by_month : list (Z * option float))
| RecommendedActions.

(** [generate_insights].  Inside the growth block, [idxmax] and [idxmin]
    need a cell of the growth column that is not missing.  When there is
    none (the column is empty, or every cell is [None] or not-a-number)
    they have no month to give and the month lines cannot be built: an
    exception leaves the function and no report is returned.  Which
    exception it is ([KeyError], [TypeError], [ValueError]) depends on the
    pandas version and is not modelled. *)
Definition generate_insights (kpis : KPIs) (region_df top_customers_df : list (string * Qc))
    (yoy_df : Pivot) : outcome (list report_block) :=
  let insights :=
    ([Summary kpis]
     ++ match region_df with r :: _ => [TopRegion r] | [] => [] end
     ++ match top_customers_df with c :: _ => [TopCustomer c] | [] => [] end)%list in
  match YoY_Growth yoy_df with
  | Some col =>
      if forallb is_null col then Raises
      else Returns (insights ++ [YoYOverview (zip (index yoy_df) col)]
                             ++ [RecommendedActions])%list
  | None => Returns (insights ++ [RecommendedActions])%list
  end.

(** ** Loading *)

(** A parsed file: the column labels and the cells under them. *)
Record Table := mkTable {
  columns : list string;
  body : list (list (option string))
}.

(** Python's [str.isspace] on a character below code point 256. *)
Definition py_isspace (c : ascii) : bool :=
  let n := nat_of_ascii c in
  ((9 <=? n) && (n <=? 13) || (28 <=? n) && (n <=? 32)
   || (n =? 133) || (n =? 160))%nat.

Fixpoint lstrip (s : string) : string :=
  match s with
  | String c s' => if py_isspace c then lstrip s' else s
  | EmptyString => EmptyString
  end.
Fixpoint rstrip (s : string) : string :=
  match s with
  | String c s' =>
      match rstrip s' with
      | EmptyString => if py_isspace c then EmptyString else String c EmptyString
      | t => String c t
      end
  | EmptyString => EmptyString
  end.
(** [str.strip()]. *)
Definition strip (s : string) : string := rstrip (lstrip s).

(** A text of whitespace only, and the two ends of a text. *)
Fixpoint blank (s : string) : Prop :=
  match s with
  | String c s' => py_isspace c = true ∧ blank s'
  | EmptyString => True
  end.
Definition first_char (s : string) : option ascii :=
  match s with String c _ => Some c | EmptyString => None end.
Fixpoint last_char (s : string) : option ascii :=
  match s with
  | String c EmptyString => Some c
  | String _ s' => last_char s'
  | EmptyString => None
  end.

(** [df.columns = [col.strip() for col in df.columns]]. *)
Definition trimmed (df : Table) : Table :=
  {| columns := strip <$> columns df; body := body df |}.

(** One call of [pd.read_csv(path, encoding=enc)]: a table, the decoding
    error that the loop catches, or any other exception. *)
Inductive read_result :=
| Parsed (df : Table)
| UnicodeDecodeError
| OtherError (e : string).

(** How [load_data] ends: it returns a table, raises its own [ValueError],
    or lets an exception of [read_csv] through. *)
Inductive load_result :=
| Returned (df : Table)
| ValueError (msg : string)
| Propagated (e : string).

Definition encodings : list string := ["utf-8"; "latin1"; "cp1252"].

Section Loader.
Variable read_csv : string → string → read_result.

(** The loop of [load_data] over the encodings still to try, with the
    lines it prints. *)
Fixpoint load_from (path : string) (encs : list string) : list string * load_result :=
  match encs with
  | [] => ([], ValueError "Unable to read the CSV. Try re-saving as UTF-8.")
  | enc :: rest =>
      match read_csv path enc with
      | Parsed df =>
          (["File loaded using encoding: " +:+ enc],
           Returned (trimmed df))
      | UnicodeDecodeError =>
          let '(out, res) := load_from path rest in
          (("Encoding failed: " +:+ enc +:+ ". Trying next...") :: out, res)
      | OtherError e => ([], Propagated e)
      end
  end.

Definition load_data (path : string) : list string * load_result :=
  load_from path encodings.
End Loader.

(** ** Tables as objects

  [clean_data] receives a reference to a table and works by statements
  that either assign a column of the table a variable refers to, in
  place, or call a method that returns a new table.  The store maps
  references to tables; a computation threads the store and fails on a
  dangling reference. *)
Module Objects.
Abbreviation store := (gmap positive DataFrame).

Definition M (A : Type) : Type := store → option (A * store).

Definition ret {A} (a : A) : M A := λ h, Some (a, h).
Definition bind {A B} (m : M A) (k : A → M B) : M B :=
  λ h, match m h with
       | Some (a, h') => k a h'
       | None => None
       end.

Notation "'let*' x := m 'in' k" := (bind m (λ x, k))
  (at level 10, x name, m at level 100, k at level 200).
Notation "m ;; k" := (bind m (λ _, k))
  (at level 100, k at level 200, right associativity).

(** A method call [df.f()] that builds a new table from the one at [l]
    and returns a reference to it ([copy], [dropna],
    [drop_duplicates]). *)
Definition method (f : DataFrame → DataFrame) (l : positive) : M positive :=
  λ h, match h !! l with
       | Some df => let l' := fresh (dom h) in Some (l', <[l' := f df]> h)
       | None => None
       end.

(** A column assignment [df[c] = ...] on the table at [l], in place. *)
Definition setitem (f : DataFrame → DataFrame) (l : positive) : M unit :=
  λ h, match h !! l with
       | Some df => Some (tt, <[l := f df]> h)
       | None => None
       end.

Definition copy : positive → M positive := method id.

Section Cleaner.
Variable parse_number : string → option Qc.
Variable parse_datetime : string → option Timestamp.

Definition clean_data (df : positive) : M positive :=
  let* df := copy df in
  setitem (assign_Sales parse_number) df ;;
  let* df := method dropna_Sales df in
  setitem (assign_Order_Date parse_datetime) df ;;
  setitem assign_Year df ;;
  setitem assign_Month df ;;
  setitem assign_Order_Month df ;;
  let* df := method drop_duplicates df in
  ret df.
End Cleaner.
End Objects.

(** ** A parser instance

    Whole numbers in decimal and dates written [YYYY-MM-DD]; any other
    text fails to parse.  The examples below run the pipeline with it. *)

Definition digit_value (c : ascii) : option Z :=
  let n := nat_of_ascii c in
  if ((48 <=? n) && (n <=? 57))%nat then Some (Z.of_nat n - 48) else None.

Fixpoint digits_value (acc : Z) (s : string) : option Z :=
  match s with
  | EmptyString => Some acc
  | String c s' =>
      match digit_value c with
      | Some d => digits_value (10 * acc + d) s'
      | None => None
      end
  end.

Definition whole_number (s : string) : option Qc :=
  match s with
  | EmptyString => None
  | _ => Qc_of_Z <$> digits_value 0 s
  end.

Definition iso_date (s : string) : option Timestamp :=
  match s with
  | String y1 (String y2 (String y3 (String y4 (String "-"
      (String m1 (String m2 (String "-" (String d1 (String d2 EmptyString))))))))) =>
      match digits_value 0 (String y1 (String y2 (String y3 (String y4 EmptyString)))),
            digits_value 0 (String m1 (String m2 EmptyString)),
            digits_value 0 (String d1 (String d2 EmptyString)) with
      | Some y, Some m, Some d =>
          if decide (1 ≤ m ≤ 12 ∧ 1 ≤ d ≤ 31) then Some (mkTimestamp y m d 0) else None
      | _, _, _ => None
      end
  | _ => None
  end.

(** A row as it comes out of the file: date and amount as text. *)
Definition raw_row (date amount region id name : string) : row :=
  mkRow (DateText date) (NumText amount) (Some region) (Some id) (Some name)
        [] None None None.

(** A file that is not there: every read raises the same error, whatever
    the encoding. *)
Definition missing_file (path enc : string) : read_result :=
  OtherError "FileNotFoundError".

(** Three rows, one with an amount that is no number. *)
Definition three_rows : DataFrame :=
  [raw_row "2023-01-05" "100" "East" "C1" "Alice";
   raw_row "2023-01-06" "bad" "East" "C2" "Bob";
   raw_row "2024-01-05" "300" "East" "C1" "Alice"].

(** A yearly table with January of 2023 and of 2024. *)
Definition two_januaries : list (Z * Z * Qc) :=
  [(2023, 1, Qc_of_Z 100); (2024, 1, Qc_of_Z 300)].

(** * Properties *)

(** ** Duplicate removal *)

Lemma elem_of_drop_duplicates_from seen df x :
  x ∈ drop_duplicates_from seen df ↔ x ∈ df ∧ x ∉ seen.
Proof.
  revert seen. induction df as [|r df IH]; intros seen; simpl.
  - split; [intros H; inversion H | intros [H _]; inversion H].
  - destruct (decide (r ∈ seen)) as [Hin|Hnin].
    + rewrite IH, elem_of_cons. split; [tauto|].
      intros [[->|?] ?]; tauto.
    + rewrite !elem_of_cons, IH, not_elem_of_cons. split.
      * intros [->|[? [? ?]]]; tauto.
      * intros [[->|?] ?]; [tauto|].
        destruct (decide (x = r)); tauto.
Qed.

Lemma NoDup_drop_duplicates_from seen df :
  NoDup (drop_duplicates_from seen df).
Proof.
  revert seen. induction df as [|r df IH]; intros seen; simpl.
  - constructor.
  - destruct (decide (r ∈ seen)); [apply IH|].
    constructor; [|apply IH].
    rewrite elem_of_drop_duplicates_from, not_elem_of_cons. tauto.
Qed.

Lemma elem_of_drop_duplicates df x : x ∈ drop_duplicates df ↔ x ∈ df.
Proof.
  unfold drop_duplicates. rewrite elem_of_drop_duplicates_from.
  split; [tauto|]. intros H; split; [done|]. intros H'; inversion H'.
Qed.

Lemma NoDup_drop_duplicates df : NoDup (drop_duplicates df).
Proof. apply NoDup_drop_duplicates_from. Qed.

(** In a list without repetition, a member occurs once. *)
Lemma NoDup_filter_eq_length {A} `{EqDecision A} (l : list A) x :
  NoDup l → x ∈ l → length (filter (λ y, y = x) l) = 1%nat.
Proof.
  induction 1 as [|y l Hy Hl IH]; intros Hx; [inversion Hx|].
  rewrite filter_cons. destruct (decide (y = x)) as [->|Hne]; simpl.
  - f_equal. assert (filter (λ y, y = x) l = []) as ->; [|done].
    destruct (filter (λ y, y = x) l) as [|z ?] eqn:E; [done|].
    assert (z ∈ filter (λ y, y = x) l) as Hz by (rewrite E; left).
    apply list_elem_of_filter in Hz as [-> ?]. done.
  - apply IH. apply elem_of_cons in Hx as [->|?]; done.
Qed.

(** ** Year-month keys *)

Lemma digit_inj a b : digit a = digit b → a mod 10 = b mod 10.
Proof.
  unfold digit. intros H. apply (f_equal nat_of_ascii) in H.
  pose proof (Z.mod_pos_bound a 10 eq_refl).
  pose proof (Z.mod_pos_bound b 10 eq_refl).
  rewrite !nat_ascii_embedding in H by lia. lia.
Qed.

(** Within four digits of year and two of month, different months have
    different keys, and none of them is the key of a missing date. *)
Lemma year_month_key_inj y m y' m' :
  0 ≤ y < 10000 → 0 ≤ y' < 10000 → 0 ≤ m < 100 → 0 ≤ m' < 100 →
  year_month_key y m = year_month_key y' m' → y = y' ∧ m = m'.
Proof.
  intros Hy Hy' Hm Hm' H. unfold year_month_key in H.
  injection H as H1 H2 H3 H4 H5 H6.
  apply digit_inj in H1, H2, H3, H4, H5, H6.
  Z.div_mod_to_equations. lia.
Qed.

Lemma year_month_key_not_NaT y m : year_month_key y m ≠ "NaT".
Proof.
  unfold year_month_key. intros H. injection H as H _.
  unfold digit in H. apply (f_equal nat_of_ascii) in H.
  pose proof (Z.mod_pos_bound (y / 1000) 10 eq_refl).
  rewrite nat_ascii_embedding in H by lia.
  change (nat_of_ascii "N") with 78%nat in H. lia.
Qed.

(** ** The cleaner *)

Section CleanerFacts.
Variable parse_number : string → option Qc.
Variable parse_datetime : string → option Timestamp.

Abbreviation to_numeric := (to_numeric parse_number).
Abbreviation to_datetime := (to_datetime parse_datetime).
Abbreviation cleaned_row := (cleaned_row parse_number parse_datetime).
Abbreviation clean_data := (clean_data parse_number parse_datetime).

Lemma to_numeric_idem c : to_numeric (to_numeric c) = to_numeric c.
Proof. destruct c; simpl; [done| |done]. by destruct (parse_number s). Qed.

Lemma to_numeric_not_text c s : to_numeric c ≠ NumText s.
Proof. destruct c; simpl; [done| |done]. by destruct (parse_number _). Qed.

Lemma to_datetime_not_text c s : to_datetime c ≠ DateText s.
Proof. destruct c; simpl; [done| |done]. by destruct (parse_datetime _). Qed.

(** Dropping the rows without an amount, seen from the table as read. *)
Lemma dropna_assign_Sales df :
  dropna_Sales (assign_Sales parse_number df) =
  (λ r, set_Sales (to_numeric (Sales r)) r)
    <$> filter (λ r, isna (to_numeric (Sales r)) = false) df.
Proof.
  unfold dropna_Sales, assign_Sales.
  induction df as [|r df IH]; [done|].
  rewrite fmap_cons, !filter_cons. simpl.
  destruct (decide (isna (to_numeric (Sales r)) = false)).
  - rewrite fmap_cons. f_equal. apply IH.
  - apply IH.
Qed.

(** The statements before [drop_duplicates], fused: the rows whose
    amount parses, each with its converted and derived cells. *)
Lemma clean_data_eq df :
  clean_data df =
  drop_duplicates
    (cleaned_row <$> filter (λ r, isna (to_numeric (Sales r)) = false) df).
Proof.
  unfold clean_data. cbv zeta. rewrite dropna_assign_Sales.
  unfold assign_Order_Month, assign_Month, assign_Year, assign_Order_Date.
  rewrite <-!list_fmap_compose. done.
Qed.

Lemma elem_of_clean_data df r' :
  r' ∈ clean_data df ↔
  ∃ r, r ∈ df ∧ isna (to_numeric (Sales r)) = false ∧ r' = cleaned_row r.
Proof.
  rewrite clean_data_eq, elem_of_drop_duplicates, list_elem_of_fmap.
  setoid_rewrite list_elem_of_filter. split.
  - intros (r & -> & Hna & Hin). eauto.
  - intros (r & Hin & Hna & ->). eauto.
Qed.

Lemma cleaned_row_Sales r :
  isna (to_numeric (Sales r)) = false → ∃ q, Sales (cleaned_row r) = Number q.
Proof.
  simpl. destruct (to_numeric (Sales r)) as [|s|q] eqn:E; [done| |eauto].
  by apply to_numeric_not_text in E.
Qed.

(** Every cleaned row has a number in [Sales] and a text in
    [Order_Month]. *)
Lemma clean_data_Sales df r :
  r ∈ clean_data df → ∃ q, Sales r = Number q.
Proof.
  rewrite elem_of_clean_data. intros (r0 & _ & Hna & ->).
  by apply cleaned_row_Sales.
Qed.

Lemma clean_data_Order_Month df r :
  r ∈ clean_data df → ∃ k, Order_Month r = Some k.
Proof.
  rewrite elem_of_clean_data. intros (r0 & _ & _ & ->). simpl.
  destruct (to_datetime (Order_Date r0)); eauto.
Qed.

(** The derived cells of a cleaned row are those of its date. *)
Lemma clean_data_derived df r :
  r ∈ clean_data df →
  Year r = dt_year (Order_Date r) ∧ Month r = dt_month (Order_Date r)
  ∧ Order_Month r = dt_to_period_M_str (Order_Date r)
  ∧ ∀ s, Order_Date r ≠ DateText s.
Proof.
  rewrite elem_of_clean_data. intros (r0 & _ & _ & ->). simpl.
  repeat split. intros s. apply to_datetime_not_text.
Qed.

Lemma isna_false c : isna c = false ↔ c ≠ NaN.
Proof. destruct c; simpl; split; congruence. Qed.

(** C3 (as amended).  [clean_data] keeps a row exactly when its amount
    parses: the cleaned table holds the cleaned image of every such row and
    nothing else, a date that fails to parse does not remove the row, and
    every cleaned row has a number in [Sales].  In a cleaned row whose date
    is missing, [Year] and [Month] are missing and [Order_Month] is the
    text [NaT]. *)
Theorem clean_data_keeps_parsed_sales (raw : DataFrame) :
  (∀ r', r' ∈ clean_data raw ↔
         ∃ r, r ∈ raw ∧ to_numeric (Sales r) ≠ NaN ∧ r' = cleaned_row r)
  ∧ (∀ r, r ∈ raw → to_numeric (Sales r) ≠ NaN →
          to_datetime (Order_Date r) = NaT →
          cleaned_row r ∈ clean_data raw ∧ Order_Date (cleaned_row r) = NaT)
  ∧ (∀ r', r' ∈ clean_data raw → ∃ q, Sales r' = Number q)
  ∧ (∀ r', r' ∈ clean_data raw → Order_Date r' = NaT →
           Year r' = None ∧ Month r' = None ∧ Order_Month r' = Some "NaT").
Proof.
  split; [|split; [|split]].
  - intros r'. rewrite elem_of_clean_data.
    by setoid_rewrite isna_false.
  - intros r Hr Hs Hd. split; [|exact Hd].
    apply elem_of_clean_data. exists r. by rewrite isna_false.
  - intros r'. apply clean_data_Sales.
  - intros r' Hr' Hd.
    destruct (clean_data_derived _ _ Hr') as (-> & -> & -> & _).
    by rewrite Hd.
Qed.

(** C9.  Duplicates are removed from the rows as they stand after the
    derived columns have been assigned: no two rows of the cleaned table
    are equal, and the input rows whose cleaned images are equal are
    represented by exactly one row. *)
Theorem clean_data_collapses_duplicates (raw : DataFrame) :
  clean_data raw =
    drop_duplicates
      (assign_Order_Month (assign_Month (assign_Year
        (assign_Order_Date parse_datetime
          (dropna_Sales (assign_Sales parse_number raw))))))
  ∧ NoDup (clean_data raw)
  ∧ (∀ i j r, clean_data raw !! i = Some r → clean_data raw !! j = Some r → i = j)
  ∧ (∀ r, r ∈ raw → to_numeric (Sales r) ≠ NaN →
          length (filter (λ r', r' = cleaned_row r) (clean_data raw)) = 1%nat).
Proof.
  assert (NoDup (clean_data raw)) as Hnd
    by (rewrite clean_data_eq; apply NoDup_drop_duplicates).
  split; [done|]. split; [done|]. split.
  - intros i j r Hi Hj. eapply NoDup_lookup; eauto.
  - intros r Hr Hs. apply NoDup_filter_eq_length; [done|].
    apply elem_of_clean_data. exists r. by rewrite isna_false.
Qed.
End CleanerFacts.

(** C3, as first stated, asks for a missing [Order_Month] next to a missing
    date.  One row with a good amount and a date that does not parse shows
    the text key. *)
Lemma clean_data_month_key_of_missing_date :
  ¬ (∀ r', r' ∈ clean_data whole_number iso_date
                  [raw_row "not a date" "7" "West" "C3" "Cy"] →
           Order_Date r' = NaT →
           Year r' = None ∧ Month r' = None ∧ Order_Month r' = None).
Proof.
  intros H.
  destruct (H (mkRow NaT (Number (Qc_of_Z 7)) (Some "West") (Some "C3")
                     (Some "Cy") [] None None (Some "NaT")))
    as (_ & _ & Hkey); [left | done | discriminate Hkey].
Qed.

(** ** Sums *)

Lemma Qcsum_app l1 l2 : Qcsum (l1 ++ l2) = (Qcsum l1 + Qcsum l2)%Qc.
Proof.
  induction l1 as [|x l1 IH]; simpl.
  - by rewrite Qcplus_0_l.
  - rewrite IH. ring.
Qed.

Lemma Qcsum_Permutation l1 l2 : l1 ≡ₚ l2 → Qcsum l1 = Qcsum l2.
Proof.
  induction 1 as [|x l1 l2 _ IH|x y l|l1 l2 l3 _ IH1 _ IH2]; simpl.
  - done.
  - by rewrite IH.
  - ring.
  - by rewrite IH1.
Qed.

Lemma sum_Sales_cons r df :
  sum_Sales (r :: df) = (default 0%Qc (sales_value r) + sum_Sales df)%Qc.
Proof.
  unfold sum_Sales. simpl. destruct (sales_value r); simpl; [done|].
  by rewrite Qcplus_0_l.
Qed.

(** Two conditions that no row meets together split the sum of the rows
    that meet either. *)
Lemma sum_Sales_filter_or (P Q : row → Prop)
    `{∀ r, Decision (P r)} `{∀ r, Decision (Q r)} (df : DataFrame) :
  (∀ r, P r → Q r → False) →
  sum_Sales (filter (λ r, P r ∨ Q r) df)
  = (sum_Sales (filter P df) + sum_Sales (filter Q df))%Qc.
Proof.
  intros Hdisj. induction df as [|r df IH]; [by vm_compute|].
  rewrite !filter_cons.
  destruct (decide (P r)) as [HP|HP], (decide (Q r)) as [HQ|HQ];
    try (exfalso; by eapply Hdisj).
  - rewrite decide_True by tauto. rewrite !sum_Sales_cons, IH. ring.
  - rewrite decide_True by tauto. rewrite !sum_Sales_cons, IH. ring.
  - rewrite decide_False by tauto. done.
Qed.

Lemma omap_id_fmap {A B} (f : A → option B) (l : list A) :
  omap id (f <$> l) = omap f l.
Proof.
  induction l as [|x l IH]; [done|]. rewrite fmap_cons. simpl.
  destruct (f x); simpl; [f_equal|]; exact IH.
Qed.

Lemma filter_ext_elem {A} (P Q : A → Prop)
    `{∀ x, Decision (P x)} `{∀ x, Decision (Q x)} (l : list A) :
  (∀ x, x ∈ l → (P x ↔ Q x)) → filter P l = filter Q l.
Proof.
  induction l as [|x l IH]; intros HPQ; [done|].
  rewrite !filter_cons.
  assert (filter P l = filter Q l) as ->
    by (apply IH; intros y Hy; apply HPQ; by right).
  apply decide_ext, HPQ. left.
Qed.

(** ** Grouped sums *)

Section GroupByFacts.
Context {K : Type} `{EqDecision K}.
Variable le : relation K.
Context `{∀ x y, Decision (le x y)} `{!Transitive le} `{!Total le}.
Variable key : row → option K.

Lemma group_keys_Permutation df :
  group_keys le key df ≡ₚ remove_dups (omap key df).
Proof. apply merge_sort_Permutation. Qed.

Lemma elem_of_group_keys df k :
  k ∈ group_keys le key df ↔ ∃ r, r ∈ df ∧ key r = Some k.
Proof.
  rewrite group_keys_Permutation, elem_of_remove_dups.
  apply list_elem_of_omap.
Qed.

Lemma NoDup_group_keys df : NoDup (group_keys le key df).
Proof. rewrite group_keys_Permutation. apply NoDup_remove_dups. Qed.

Lemma group_keys_sorted df : StronglySorted le (group_keys le key df).
Proof. apply StronglySorted_merge_sort; done. Qed.

Lemma length_group_keys df :
  length (group_keys le key df) = nunique (key <$> df).
Proof.
  unfold nunique. rewrite omap_id_fmap.
  apply Permutation_length, group_keys_Permutation.
Qed.

Lemma groupby_sum_labels df :
  (groupby_sum le key df).*1 = group_keys le key df.
Proof.
  unfold groupby_sum. rewrite <-list_fmap_compose.
  induction (group_keys le key df) as [|k ks IH]; [done|].
  rewrite fmap_cons. simpl. by rewrite IH.
Qed.

Lemma elem_of_groupby_sum df k s :
  (k, s) ∈ groupby_sum le key df ↔
  (∃ r, r ∈ df ∧ key r = Some k)
  ∧ s = sum_Sales (filter (λ r, key r = Some k) df).
Proof.
  unfold groupby_sum. rewrite list_elem_of_fmap.
  setoid_rewrite elem_of_group_keys. split.
  - intros (k' & [= -> ->] & Hk). done.
  - intros [Hk ->]. eauto.
Qed.

Lemma sum_Sales_groups ks df :
  NoDup ks →
  Qcsum ((λ k, sum_Sales (filter (λ r, key r = Some k) df)) <$> ks)
  = sum_Sales (filter (in_groups key ks) df).
Proof.
  induction 1 as [|k ks Hk Hks IH].
  - simpl. assert (filter (in_groups key []) df = []) as ->; [|done].
    induction df as [|r df IHdf]; [done|].
    rewrite filter_cons_False; [done|].
    intros (? & _ & Hin). inversion Hin.
  - rewrite fmap_cons. simpl. rewrite IH.
    rewrite <-sum_Sales_filter_or.
    + f_equal. apply list_filter_iff. intros r. unfold in_groups. split.
      * intros [Hr|(k' & Hr & Hin)]; [exists k | exists k'];
          rewrite elem_of_cons; auto.
      * intros (k' & Hr & [->|Hin]%elem_of_cons); [by left|].
        right. eauto.
    + intros r Hr (k' & Hr' & Hin). congruence.
Qed.

(** The grouped sums add up to the sum over the rows that have a key. *)
Lemma groupby_sum_total df :
  Qcsum (groupby_sum le key df).*2
  = sum_Sales (filter (λ r, is_Some (key r)) df).
Proof.
  unfold groupby_sum. rewrite <-list_fmap_compose.
  etrans; [apply (sum_Sales_groups _ df), NoDup_group_keys|].
  f_equal. apply filter_ext_elem. intros r Hr. unfold in_groups.
  setoid_rewrite elem_of_group_keys. split.
  - intros (k & -> & _). eauto.
  - intros [k Hk]. exists k. eauto.
Qed.

Lemma groupby_sum_total_all df :
  (∀ r, r ∈ df → is_Some (key r)) →
  Qcsum (groupby_sum le key df).*2 = sum_Sales df.
Proof.
  intros Hall. rewrite groupby_sum_total. f_equal.
  induction df as [|r df IH]; [done|].
  rewrite filter_cons_True by (apply Hall; left).
  f_equal. apply IH. intros r' Hr'. apply Hall. by right.
Qed.
End GroupByFacts.

(** ** Sorted tables *)

Lemma on_label_total {K V} (R : relation K) `{!Total R} :
  Total (λ a b : K * V, R a.1 b.1).
Proof. intros a b. apply (total R). Qed.

Lemma on_label_trans {K V} (R : relation K) `{!Transitive R} :
  Transitive (λ a b : K * V, R a.1 b.1).
Proof. intros a b c. apply (transitivity (R:=R)). Qed.

Lemma sort_by_label_Permutation {K} (R : relation K) `{∀ x y, Decision (R x y)}
    (t : list (K * Qc)) :
  sort_by_label R t ≡ₚ t.
Proof. apply merge_sort_Permutation. Qed.

Lemma sort_by_label_sorted {K} (R : relation K) `{∀ x y, Decision (R x y)}
    `{!Transitive R} `{!Total R} (t : list (K * Qc)) :
  StronglySorted R (sort_by_label R t).*1.
Proof.
  apply (StronglySorted_fmap fst (λ a b, R a.1 b.1) R); [done|].
  apply StronglySorted_merge_sort.
  - by apply on_label_trans.
  - by apply on_label_total.
Qed.

(** Ascending without repetition is strictly ascending. *)
Lemma StronglySorted_NoDup_strict {A} (R : relation A) (l : list A) :
  StronglySorted R l → NoDup l → StronglySorted (λ a b, R a b ∧ a ≠ b) l.
Proof.
  induction 1 as [|x l Hl IH Hx]; intros Hnd; [constructor|].
  apply NoDup_cons in Hnd as [Hnin Hnd].
  constructor; [by apply IH|].
  apply Forall_forall. intros y Hy. split.
  - by eapply Forall_forall in Hx.
  - intros ->. done.
Qed.

(** In a sorted list an earlier element is related to every later one. *)
Lemma StronglySorted_lookup_lt {A} (R : relation A) (l : list A) i j x y :
  StronglySorted R l → l !! i = Some x → l !! j = Some y → (i < j)%nat → R x y.
Proof.
  intros Hs. revert i j. induction Hs as [|z l Hl IH Hz]; intros i j Hi Hj Hij.
  - done.
  - destruct j as [|j]; [lia|]. simpl in Hj. destruct i as [|i]; simpl in Hi.
    + injection Hi as <-. eapply Forall_forall; [exact Hz|].
      by eapply list_elem_of_lookup_2.
    + apply (IH i j); [done..|lia].
Qed.

#[global] Instance sales_ge_total {K} : Total (@sales_ge K).
Proof. intros a b. unfold sales_ge. apply (total Qcle). Qed.

#[global] Instance sales_ge_trans {K} : Transitive (@sales_ge K).
Proof. intros a b c. unfold sales_ge. intros ??. by etrans. Qed.

Lemma sort_by_Sales_desc_Permutation {K} (t : list (K * Qc)) :
  sort_by_Sales_desc t ≡ₚ t.
Proof. apply merge_sort_Permutation. Qed.

Lemma sort_by_Sales_desc_sorted {K} (t : list (K * Qc)) :
  StronglySorted sales_ge (sort_by_Sales_desc t).
Proof. apply StronglySorted_merge_sort; apply _. Qed.

(** ** The monthly series *)

Lemma monthly_trend_Permutation df :
  monthly_trend df ≡ₚ groupby_sum String.le Order_Month df.
Proof. apply sort_by_label_Permutation. Qed.

Lemma monthly_trend_labels df :
  (monthly_trend df).*1 ≡ₚ group_keys String.le Order_Month df.
Proof. by rewrite monthly_trend_Permutation, groupby_sum_labels. Qed.

Lemma monthly_trend_strictly_ascending df :
  StronglySorted (λ a b, String.le a b ∧ a ≠ b) (monthly_trend df).*1.
Proof.
  apply StronglySorted_NoDup_strict.
  - apply sort_by_label_sorted; apply _.
  - rewrite monthly_trend_labels. apply NoDup_group_keys.
Qed.

Lemma elem_of_monthly_trend_labels df k :
  k ∈ (monthly_trend df).*1 ↔ ∃ r, r ∈ df ∧ Order_Month r = Some k.
Proof. rewrite monthly_trend_labels. apply elem_of_group_keys. Qed.

Section AggregateFacts.
Variable parse_number : string → option Qc.
Variable parse_datetime : string → option Timestamp.

Abbreviation clean_data := (clean_data parse_number parse_datetime).

(** C4 (as amended).  The monthly series of a cleaned table is in strictly
    ascending order of its text key.  Its keys are the year-month keys of
    the (year, month) pairs of the table and, when some row of the table
    has no date, the key [NaT] under which those rows are summed. *)
Theorem monthly_trend_sorted_keys (raw : DataFrame) :
  StronglySorted (λ a b, String.le a b ∧ a ≠ b)
                 (monthly_trend (clean_data raw)).*1
  ∧ ∀ k, k ∈ (monthly_trend (clean_data raw)).*1 ↔
         (∃ r y m, r ∈ clean_data raw ∧ Year r = Some y ∧ Month r = Some m
                   ∧ k = year_month_key y m)
         ∨ (k = "NaT" ∧ ∃ r, r ∈ clean_data raw ∧ Order_Date r = NaT).
Proof.
  split; [apply monthly_trend_strictly_ascending|].
  intros k. rewrite elem_of_monthly_trend_labels. split.
  - intros (r & Hr & Hk).
    destruct (clean_data_derived _ _ _ _ Hr) as (Hy & Hm & Hom & Htext).
    rewrite Hom in Hk. destruct (Order_Date r) as [|s|t] eqn:Hd.
    + right. simpl in Hk. injection Hk as <-. eauto.
    + by destruct (Htext s).
    + left. simpl in *. injection Hk as <-. exists r, (ts_year t), (ts_month t).
      done.
  - intros [(r & y & m & Hr & Hy & Hm & ->)|(-> & r & Hr & Hd)];
      exists r; (split; [done|]);
      destruct (clean_data_derived _ _ _ _ Hr) as (Hy' & Hm' & -> & _).
    + rewrite Hy' in Hy. rewrite Hm' in Hm.
      destruct (Order_Date r); simpl in *; [done..|].
      injection Hy as <-. injection Hm as <-. done.
    + by rewrite Hd.
Qed.

(** C5.  The revenues of the monthly series of a cleaned table add up to
    the [Total_Sales] of its KPIs: every cleaned row has a text key, so
    every row is in one group. *)
Theorem monthly_trend_total (raw : DataFrame) :
  Qcsum (monthly_trend (clean_data raw)).*2
  = Total_Sales (compute_kpis (clean_data raw)).
Proof.
  rewrite (Qcsum_Permutation _ (groupby_sum String.le Order_Month (clean_data raw)).*2)
    by (by rewrite monthly_trend_Permutation).
  simpl. apply groupby_sum_total_all.
  intros r Hr. destruct (clean_data_Order_Month _ _ _ _ Hr) as [k ->]. eauto.
Qed.
End AggregateFacts.

(** C4, as first stated, makes the keys of the monthly series the
    (year, month) pairs of the table.  A table whose only row has no date
    has no such pair, and its series has the key [NaT]. *)
Lemma monthly_trend_key_without_date :
  ¬ (∀ k, k ∈ (monthly_trend (clean_data whole_number iso_date
                   [raw_row "not a date" "7" "West" "C3" "Cy"])).*1 ↔
          ∃ r y m, r ∈ clean_data whole_number iso_date
                         [raw_row "not a date" "7" "West" "C3" "Cy"]
                   ∧ Year r = Some y ∧ Month r = Some m
                   ∧ k = year_month_key y m).
Proof.
  intros H. destruct (proj1 (H "NaT")) as (r & y & m & Hr & Hy & _).
  - apply elem_of_monthly_trend_labels. eexists. split; [left|done].
  - apply list_elem_of_singleton in Hr. subst r. discriminate Hy.
Qed.

(** ** Rankings *)

Lemma head_of_nat {A} (n : nat) (t : list A) : head (Z.of_nat n) t = take n t.
Proof.
  unfold head. rewrite decide_True by lia. by rewrite Nat2Z.id.
Qed.

Section RankingFacts.
Variable key : row → option string.
Variable df : DataFrame.

Abbreviation ranking := (sort_by_Sales_desc (groupby_sum String.le key df)).

Lemma ranking_Permutation : ranking ≡ₚ groupby_sum String.le key df.
Proof. apply sort_by_Sales_desc_Permutation. Qed.

Lemma ranking_labels : ranking.*1 ≡ₚ group_keys String.le key df.
Proof. by rewrite ranking_Permutation, groupby_sum_labels. Qed.

Lemma NoDup_ranking_labels : NoDup ranking.*1.
Proof. rewrite ranking_labels. apply NoDup_group_keys. Qed.

Lemma elem_of_ranking k s :
  (k, s) ∈ ranking ↔
  (∃ r, r ∈ df ∧ key r = Some k)
  ∧ s = sum_Sales (filter (λ r, key r = Some k) df).
Proof. rewrite ranking_Permutation. apply elem_of_groupby_sum; apply _. Qed.

Lemma elem_of_ranking_labels k :
  k ∈ ranking.*1 ↔ ∃ r, r ∈ df ∧ key r = Some k.
Proof. rewrite ranking_labels. apply elem_of_group_keys. Qed.

Lemma length_ranking : length ranking = nunique (key <$> df).
Proof.
  rewrite <-(length_fmap fst), ranking_labels. apply length_group_keys.
Qed.

(** The first [n] rows of the ranking: what they hold, how many they are,
    and that no row left out has a larger sum. *)
Lemma take_ranking (n : nat) :
  (∀ k s, (k, s) ∈ take n ranking →
          (∃ r, r ∈ df ∧ key r = Some k)
          ∧ s = sum_Sales (filter (λ r, key r = Some k) df))
  ∧ NoDup (take n ranking).*1
  ∧ StronglySorted sales_ge (take n ranking)
  ∧ length (take n ranking) = (n `min` nunique (key <$> df))%nat
  ∧ (∀ k r, r ∈ df → key r = Some k → k ∉ (take n ranking).*1 →
            ∀ x, x ∈ take n ranking →
                 (sum_Sales (filter (λ r, key r = Some k) df) ≤ x.2)%Qc).
Proof.
  pose proof (sort_by_Sales_desc_sorted (groupby_sum String.le key df)) as Hs.
  rewrite <-(take_drop n ranking) in Hs.
  apply StronglySorted_app in Hs as (Hcross & Htake & _).
  split; [|split; [|split; [|split]]].
  - intros k s Hin. apply elem_of_ranking.
    by apply (sublist_subseteq _ _ (sublist_take ranking n)).
  - rewrite fmap_take.
    apply (sublist_NoDup _ _ NoDup_ranking_labels), sublist_take.
  - done.
  - by rewrite length_take, length_ranking.
  - intros k r Hr Hk Hnot x Hx.
    assert ((k, sum_Sales (filter (λ r, key r = Some k) df)) ∈ ranking) as Hin
      by (apply elem_of_ranking; eauto).
    rewrite <-(take_drop n ranking), elem_of_app in Hin.
    destruct Hin as [Hin|Hin].
    + destruct Hnot. apply list_elem_of_fmap. eexists. split; [|exact Hin]. done.
    + apply (Hcross x _ Hx Hin).
Qed.
End RankingFacts.

Section RankingClaims.
Variable parse_number : string → option Qc.
Variable parse_datetime : string → option Timestamp.

Abbreviation clean_data := (clean_data parse_number parse_datetime).

(** C6.  For a cleaned table and a row count [n], every row of
    [top_customers] is a customer name of the table with the sum of that
    customer's sales, no name appears twice, the rows are in descending
    order of their sums, and no customer left out has a larger sum than a
    customer listed.  There are [min n d] rows, where [d] is the number of
    distinct customer names: at most [n], and at most [d]. *)
Theorem top_customers_at_most_n (raw : DataFrame) (n : nat) :
  let df := clean_data raw in
  let top := top_customers df (Z.of_nat n) in
  (∀ c s, (c, s) ∈ top →
          (∃ r, r ∈ df ∧ Customer_Name r = Some c)
          ∧ s = sum_Sales (filter (λ r, Customer_Name r = Some c) df))
  ∧ NoDup top.*1
  ∧ StronglySorted sales_ge top
  ∧ length top = (n `min` nunique (Customer_Name <$> df))%nat
  ∧ (∀ c r, r ∈ df → Customer_Name r = Some c → c ∉ top.*1 →
            ∀ x, x ∈ top →
                 (sum_Sales (filter (λ r, Customer_Name r = Some c) df) ≤ x.2)%Qc)
  ∧ (length top ≤ n)%nat
  ∧ (length top ≤ nunique (Customer_Name <$> df))%nat.
Proof.
  intros df top. unfold top, top_customers. rewrite head_of_nat.
  destruct (take_ranking Customer_Name df n) as (H1 & H2 & H3 & H4 & H5).
  repeat (split; [done|]). rewrite H4. lia.
Qed.

(** C7 (as amended).  The region ranking of a cleaned table has one row
    for every distinct region, with the sum of that region's sales, and
    its revenue column is in descending order: no row has a larger revenue
    than a row above it. *)
Theorem revenue_by_region_descending (raw : DataFrame) :
  let df := clean_data raw in
  let regions := revenue_by_region df in
  (∀ g, g ∈ regions.*1 ↔ ∃ r, r ∈ df ∧ Region r = Some g)
  ∧ NoDup regions.*1
  ∧ length regions = nunique (Region <$> df)
  ∧ (∀ g s, (g, s) ∈ regions →
            s = sum_Sales (filter (λ r, Region r = Some g) df))
  ∧ StronglySorted sales_ge regions
  ∧ (∀ i j x y, regions !! i = Some x → regions !! j = Some y →
                (i < j)%nat → (y.2 ≤ x.2)%Qc).
Proof.
  intros df regions. unfold regions, revenue_by_region.
  pose proof (sort_by_Sales_desc_sorted (groupby_sum String.le Region df)) as Hs.
  split; [|split; [|split; [|split; [|split]]]].
  - apply elem_of_ranking_labels.
  - apply NoDup_ranking_labels.
  - apply length_ranking.
  - intros g s Hin. by apply elem_of_ranking in Hin as [_ ->].
  - done.
  - intros i j x y Hi Hj Hij.
    by eapply (StronglySorted_lookup_lt sales_ge _ i j x y Hs).
Qed.
End RankingClaims.

(** C7, as first stated, asks for a strictly descending revenue column.
    Two regions with the same revenue are both listed, one directly below
    the other. *)
Lemma revenue_by_region_tie :
  ¬ StronglySorted (λ a b : string * Qc, (b.2 < a.2)%Qc)
      (revenue_by_region (clean_data whole_number iso_date
         [raw_row "2023-01-05" "100" "East" "C1" "Alice";
          raw_row "2023-01-06" "100" "West" "C2" "Bob"])).
Proof.
  intros H. vm_compute in H.
  apply StronglySorted_cons in H as [H _].
  apply Forall_cons in H as [H _]. vm_compute in H. discriminate H.
Qed.

(** ** The year-by-month matrix *)

Lemma Year_labels_sorted df : StronglySorted Z.le (Year_labels df).
Proof. apply StronglySorted_merge_sort; apply _. Qed.

Lemma NoDup_Year_labels df : NoDup (Year_labels df).
Proof.
  unfold Year_labels. rewrite merge_sort_Permutation. apply NoDup_remove_dups.
Qed.

Lemma elem_of_Year_labels df y :
  y ∈ Year_labels df ↔ ∃ m s, (y, m, s) ∈ df.
Proof.
  unfold Year_labels.
  rewrite merge_sort_Permutation, elem_of_remove_dups, list_elem_of_fmap.
  split.
  - intros ([[y' m] s] & -> & Hin). eauto.
  - intros (m & s & Hin). by exists (y, m, s).
Qed.

Lemma pivot_table_columns df :
  (year_columns (pivot_table df)).*1 = Year_labels df.
Proof.
  simpl. rewrite <-list_fmap_compose. apply list_fmap_id.
Qed.

(** Sorting the column labels again leaves them as they are. *)
Lemma sorted_pivot_columns df :
  merge_sort Z.le (year_columns (pivot_table df)).*1 = Year_labels df.
Proof.
  rewrite pivot_table_columns.
  apply (StronglySorted_unique Z.le).
  - apply StronglySorted_merge_sort; apply _.
  - apply Year_labels_sorted.
  - apply merge_sort_Permutation.
Qed.

Lemma getitem_pivot_table df y :
  y ∈ Year_labels df →
  getitem y (pivot_table df) = (λ m, pivot_cell df m y) <$> Month_labels df.
Proof.
  unfold getitem. simpl. generalize (Year_labels df) as years.
  induction years as [|y' years IH]; intros Hin; [inversion Hin|].
  rewrite fmap_cons, filter_cons. simpl.
  destruct (decide (y' = y)) as [->|Hne]; [done|].
  apply IH. apply elem_of_cons in Hin as [->|?]; done.
Qed.

Lemma zip_with_fmap_same {A B C D} (g : B → C → D) (f1 : A → B) (f2 : A → C) l :
  zip_with g (f1 <$> l) (f2 <$> l) = (λ x, g (f1 x) (f2 x)) <$> l.
Proof. induction l as [|x l IH]; [done|]. rewrite !fmap_cons. simpl. by f_equal. Qed.

(** The two most recent labels of an ascending list without repetition
    are its last two elements. *)
Lemma reverse_sorted_latest_prior (l : list Z) latest prior :
  StronglySorted Z.le l → NoDup l →
  latest ∈ l → prior ∈ l → prior < latest →
  (∀ y, y ∈ l → y ≤ latest) →
  (∀ y, y ∈ l → y < latest → y ≤ prior) →
  ∃ rest, reverse l = latest :: prior :: rest.
Proof.
  intros Hs Hnd Hl Hp Hlt Hmax Hnext.
  destruct l as [|a l'] using rev_ind; [inversion Hl|]. clear IHl'.
  apply StronglySorted_app in Hs as (Hcross & Hs' & _).
  apply NoDup_app in Hnd as (Hnd' & Hdisj & _).
  assert (a = latest) as ->.
  { apply elem_of_app in Hl as [Hl|Hl%list_elem_of_singleton]; [|done].
    pose proof (Hcross latest a Hl ltac:(left)).
    pose proof (Hmax a ltac:(apply elem_of_app; right; left)). lia. }
  assert (prior ∈ l') as Hp'.
  { apply elem_of_app in Hp as [?|Hp%list_elem_of_singleton]; [done|lia]. }
  destruct l' as [|b l''] using rev_ind; [inversion Hp'|]. clear IHl''.
  apply StronglySorted_app in Hs' as (Hcross' & _ & _).
  assert (b = prior) as ->.
  { assert (b ∈ (l'' ++ [b])%list) as Hb by (apply elem_of_app; right; left).
    assert (b ≠ latest) as Hne by (intros ->; eapply Hdisj; [exact Hb|left]).
    pose proof (Hmax b ltac:(apply elem_of_app; by left)).
    pose proof (Hnext b ltac:(apply elem_of_app; by left) ltac:(lia)).
    apply elem_of_app in Hp' as [Hp'|Hp'%list_elem_of_singleton]; [|done].
    pose proof (Hcross' prior b Hp' ltac:(left)). lia. }
  exists (reverse l''). by rewrite !reverse_snoc.
Qed.

(** The growth column is assigned on every path through [yoy_pivot]. *)
Lemma yoy_pivot_has_growth_column df : is_Some (YoY_Growth (yoy_pivot df)).
Proof.
  unfold yoy_pivot.
  destruct (reverse _) as [|? [|? ?]]; simpl; eauto.
Qed.

Lemma yoy_pivot_index df : index (yoy_pivot df) = Month_labels df.
Proof.
  unfold yoy_pivot. destruct (reverse _) as [|? [|? ?]]; done.
Qed.

(** With fewer than two years the growth column holds [None] in every
    row. *)
Lemma yoy_pivot_fewer_than_two_years df :
  (length (Year_labels df) < 2)%nat →
  YoY_Growth (yoy_pivot df) = Some (replicate (length (Month_labels df)) None).
Proof.
  intros Hlen. unfold yoy_pivot. rewrite sorted_pivot_columns.
  destruct (reverse (Year_labels df)) as [|y1 [|y2 rest]] eqn:E; [done..|].
  apply (f_equal length) in E. rewrite length_reverse in E. simpl in E. lia.
Qed.

(** ** Growth between the two most recent years *)

Lemma Qc_hundred_pos : (0 < Qc_of_Z 100)%Qc.
Proof. reflexivity. Qed.

Lemma Qc_hundred_nonzero : Qc_of_Z 100 ≠ 0%Qc.
Proof. intros H. apply (f_equal this) in H. discriminate H. Qed.

Lemma growth_finite a b :
  b ≠ 0%Qc →
  growth (Finite a) (Finite b) = Finite ((a - b) / b * Qc_of_Z 100)%Qc.
Proof.
  intros Hb. unfold growth. simpl. rewrite decide_False by done. reflexivity.
Qed.

Lemma fmul_Inf_hundred : fmul Inf (Finite (Qc_of_Z 100)) = Inf.
Proof.
  unfold fmul. rewrite decide_False by apply Qc_hundred_nonzero.
  by rewrite decide_True by apply Qc_hundred_pos.
Qed.

Lemma fmul_NegInf_hundred : fmul NegInf (Finite (Qc_of_Z 100)) = NegInf.
Proof.
  unfold fmul. rewrite decide_False by apply Qc_hundred_nonzero.
  by rewrite decide_True by apply Qc_hundred_pos.
Qed.

Lemma growth_zero_prior a :
  growth (Finite a) (Finite 0%Qc) =
  if decide (a = 0%Qc) then NotANumber
  else if decide (0 < a)%Qc then Inf else NegInf.
Proof.
  unfold growth, fsub, fdiv. rewrite decide_True by done.
  assert (a - 0 = a)%Qc as -> by ring.
  destruct (decide (a = 0%Qc)); [done|].
  destruct (decide (0 < a)%Qc);
    [apply fmul_Inf_hundred | apply fmul_NegInf_hundred].
Qed.

Lemma growth_missing a b :
  a = NotANumber ∨ b = NotANumber → growth a b = NotANumber.
Proof. intros [-> | ->]; unfold growth; by destruct a || destruct b. Qed.

(** C2 (as amended).  When the table has at least two years, [latest] the
    most recent one and [prior] the one before it, every month row of
    [yoy_pivot] has a growth cell computed from the two cells of that month:
    [(latest - prior) / prior * 100] when both are present and the prior
    one is not zero; not-a-number when either is missing; and when the
    prior value is zero, plus infinity for a positive latest value, minus
    infinity for a negative one, not-a-number for zero. *)
Theorem yoy_growth_formula (df : list (Z * Z * Qc)) (latest prior : Z) :
  latest ∈ Year_labels df → prior ∈ Year_labels df → prior < latest →
  (∀ y, y ∈ Year_labels df → y ≤ latest) →
  (∀ y, y ∈ Year_labels df → y < latest → y ≤ prior) →
  ∃ col, YoY_Growth (yoy_pivot df) = Some col
    ∧ length col = length (index (yoy_pivot df))
    ∧ ∀ i m, index (yoy_pivot df) !! i = Some m →
        ∃ g, col !! i = Some (Some g)
          ∧ g = growth (pivot_cell df m latest) (pivot_cell df m prior)
          ∧ (∀ a b, pivot_cell df m latest = Finite a →
                    pivot_cell df m prior = Finite b → b ≠ 0%Qc →
                    g = Finite ((a - b) / b * Qc_of_Z 100)%Qc)
          ∧ (∀ a, pivot_cell df m latest = Finite a →
                  pivot_cell df m prior = Finite 0%Qc →
                  ((0 < a)%Qc → g = Inf) ∧ ((a < 0)%Qc → g = NegInf)
                  ∧ (a = 0%Qc → g = NotANumber))
          ∧ (pivot_cell df m latest = NotANumber
             ∨ pivot_cell df m prior = NotANumber → g = NotANumber).
Proof.
  intros Hl Hp Hlt Hmax Hnext.
  destruct (reverse_sorted_latest_prior (Year_labels df) latest prior)
    as [rest Hrev]; auto using Year_labels_sorted, NoDup_Year_labels.
  rewrite yoy_pivot_index. unfold yoy_pivot.
  rewrite sorted_pivot_columns, Hrev. simpl.
  rewrite !getitem_pivot_table by done. rewrite zip_with_fmap_same.
  eexists. split; [done|]. split; [by rewrite length_fmap|].
  intros i m Hm. eexists. rewrite list_lookup_fmap, Hm. simpl.
  split; [done|]. split; [done|]. split; [|split].
  - intros a b -> -> Hb. by apply growth_finite.
  - intros a -> ->. rewrite growth_zero_prior. split; [|split].
    + intros Ha. rewrite decide_False, decide_True; [done..|].
      intros ->. by apply Qclt_not_eq in Ha.
    + intros Ha. rewrite decide_False, decide_False; [done| |].
      * by apply Qcle_not_lt, Qclt_le_weak.
      * intros ->. by apply Qclt_not_eq in Ha.
    + intros ->. by rewrite decide_True.
  - apply growth_missing.
Qed.

(** The years 2023 and 2024 with one month each: growth of January is
    200 percent. *)
Lemma yoy_growth_formula_two_years :
  let df := two_januaries in
  ∃ col, YoY_Growth (yoy_pivot df) = Some col
    ∧ length col = length (index (yoy_pivot df))
    ∧ ∀ i m, index (yoy_pivot df) !! i = Some m →
        ∃ g, col !! i = Some (Some g)
          ∧ g = growth (pivot_cell df m 2024) (pivot_cell df m 2023)
          ∧ (∀ a b, pivot_cell df m 2024 = Finite a →
                    pivot_cell df m 2023 = Finite b → b ≠ 0%Qc →
                    g = Finite ((a - b) / b * Qc_of_Z 100)%Qc)
          ∧ (∀ a, pivot_cell df m 2024 = Finite a →
                  pivot_cell df m 2023 = Finite 0%Qc →
                  ((0 < a)%Qc → g = Inf) ∧ ((a < 0)%Qc → g = NegInf)
                  ∧ (a = 0%Qc → g = NotANumber))
          ∧ (pivot_cell df m 2024 = NotANumber
             ∨ pivot_cell df m 2023 = NotANumber → g = NotANumber).
Proof.
  assert (Year_labels two_januaries = [2023; 2024]) as Hy
    by (vm_compute; reflexivity).
  apply (yoy_growth_formula two_januaries 2024 2023); rewrite ?Hy.
  - right. left.
  - left.
  - lia.
  - intros y [->|[->|[]%elem_of_nil]%elem_of_cons]%elem_of_cons; lia.
  - intros y [->|[->|[]%elem_of_nil]%elem_of_cons]%elem_of_cons; lia.
Defined.

(** C2, as first stated, asks for a missing growth value whenever the
    prior-year value of the month is zero.  January with no revenue in
    2023 and a revenue of 300 in 2024 has the growth plus infinity. *)
Lemma yoy_growth_zero_prior_year :
  let df := yearly_trend (clean_data whole_number iso_date
              [raw_row "2023-01-05" "0" "East" "C1" "Alice";
               raw_row "2024-01-05" "300" "East" "C1" "Alice"]) in
  ¬ (∀ col i m g,
       YoY_Growth (yoy_pivot df) = Some col →
       index (yoy_pivot df) !! i = Some m → col !! i = Some g →
       pivot_cell df m 2023 = Finite 0%Qc → is_null g = true).
Proof.
  intros df H.
  specialize (H [Some Inf] 0%nat 1 (Some Inf)).
  discriminate H; vm_compute; reflexivity.
Qed.

(** ** One year of data *)

Lemma forallb_is_null_replicate n : forallb is_null (replicate n None) = true.
Proof. induction n as [|n IH]; [done|]. exact IH. Qed.

(** With fewer than two years every cell of the growth column is missing,
    and the column is there all the same: the chart is not skipped, and
    the growth block of the report is entered and raises. *)
Lemma yoy_fewer_than_two_years draws df kpis region_df top_customers_df path :
  (length (Year_labels df) < 2)%nat →
  (∃ col, YoY_Growth (yoy_pivot df) = Some col
          ∧ ∀ c, c ∈ col → is_null c = true)
  ∧ plot_yoy_growth draws (yoy_pivot df) path ≠ Skipped
  ∧ generate_insights kpis region_df top_customers_df (yoy_pivot df) = Raises.
Proof.
  intros Hlen. pose proof (yoy_pivot_fewer_than_two_years df Hlen) as Hcol.
  split; [|split].
  - eexists. split; [exact Hcol|].
    by intros c ->%elem_of_replicate_inv.
  - unfold plot_yoy_growth. rewrite Hcol. by destruct (draws _).
  - unfold generate_insights. by rewrite Hcol, forallb_is_null_replicate.
Qed.

(** C1, on a table with the single year 2023.  The growth column of the
    matrix is there and holds [None] in its only row.  [plot_yoy_growth]
    does not return at its guard: it hands the one bar to the drawing
    calls.  [generate_insights] does not leave the growth block out: it
    enters it and raises, so no report is returned. *)
Theorem yoy_single_year_not_skipped (draws : list (Z * option float) → bool) :
  let df := clean_data whole_number iso_date
              [raw_row "2023-01-05" "100" "East" "C1" "Alice"] in
  let yoy_df := yoy_pivot (yearly_trend df) in
  nunique (Year <$> df) = 1%nat
  ∧ YoY_Growth yoy_df = Some [None]
  ∧ plot_yoy_growth draws yoy_df "yoy_growth_chart.png" ≠ Skipped
  ∧ plot_yoy_growth draws yoy_df "yoy_growth_chart.png"
    = (if draws [(1, None)]
       then Saved {| fig_path := "yoy_growth_chart.png";
                     fig_bars := [(1, None)] |}
       else PlotError)
  ∧ generate_insights (compute_kpis df) (revenue_by_region df)
                      (top_customers df default_n) yoy_df
    = Raises.
Proof.
  intros df yoy_df.
  assert (YoY_Growth yoy_df = Some [None]) as Hcol by (vm_compute; reflexivity).
  assert (index yoy_df = [1]) as Hidx by (vm_compute; reflexivity).
  split; [by vm_compute|]. split; [done|].
  assert (plot_yoy_growth draws yoy_df "yoy_growth_chart.png"
          = (if draws [(1, None)]
             then Saved {| fig_path := "yoy_growth_chart.png";
                           fig_bars := [(1, None)] |}
             else PlotError)) as Hplot.
  { unfold plot_yoy_growth. by rewrite Hcol, Hidx. }
  split; [|split; [done|]].
  - rewrite Hplot. by destruct (draws _).
  - unfold generate_insights. by rewrite Hcol.
Qed.

(** ** Trimming *)

Lemma lstrip_split s : ∃ pre, s = pre +:+ lstrip s ∧ blank pre.
Proof.
  induction s as [|c s (pre & Hs & Hpre)]; [by exists EmptyString|].
  simpl. destruct (py_isspace c) eqn:Hc.
  - exists (String c pre). split; [|done].
    change (String c s = String c (pre +:+ lstrip s)). by f_equal.
  - by exists EmptyString.
Qed.

Lemma lstrip_first s c : first_char (lstrip s) = Some c → py_isspace c = false.
Proof.
  induction s as [|c' s IH]; [done|]. simpl.
  destruct (py_isspace c') eqn:Hc; [done|]. simpl. congruence.
Qed.

Lemma rstrip_split s : ∃ post, s = rstrip s +:+ post ∧ blank post.
Proof.
  induction s as [|c s (post & Hs & Hpost)]; [by exists EmptyString|].
  simpl. destruct (rstrip s) as [|c' t] eqn:Hr.
  - simpl in Hs. subst s. destruct (py_isspace c) eqn:Hc.
    + by exists (String c post).
    + by exists post.
  - exists post. split; [|done].
    change (String c s = String c (String c' t +:+ post)). by f_equal.
Qed.

Lemma rstrip_last s c : last_char (rstrip s) = Some c → py_isspace c = false.
Proof.
  induction s as [|c' s IH]; [done|]. simpl.
  destruct (rstrip s) as [|c'' t] eqn:Hr.
  - destruct (py_isspace c') eqn:Hc; [done|]. simpl. congruence.
  - exact IH.
Qed.

Lemma rstrip_first s c :
  first_char s = Some c → py_isspace c = false → first_char (rstrip s) = Some c.
Proof.
  destruct s as [|c' s]; [done|]. simpl. intros [= ->] Hc.
  destruct (rstrip s); [by rewrite Hc|done].
Qed.

(** [strip] removes whitespace at both ends and nothing else. *)
Lemma strip_spec s :
  (∃ pre post, s = pre +:+ strip s +:+ post ∧ blank pre ∧ blank post)
  ∧ (∀ c, first_char (strip s) = Some c → py_isspace c = false)
  ∧ (∀ c, last_char (strip s) = Some c → py_isspace c = false).
Proof.
  unfold strip. split; [|split].
  - destruct (lstrip_split s) as (pre & Hs & Hpre).
    destruct (rstrip_split (lstrip s)) as (post & Hl & Hpost).
    exists pre, post. by rewrite <-Hl.
  - intros c Hc. destruct (lstrip s) as [|c' t] eqn:Hl; [done|].
    destruct (py_isspace c') eqn:Hc'.
    + by rewrite (lstrip_first s c') in Hc' by (by rewrite Hl).
    + rewrite (rstrip_first _ c') in Hc by done. congruence.
  - apply rstrip_last.
Qed.

(** ** The loader *)

Section LoaderFacts.
Variable read_csv : string → string → read_result.

Abbreviation load_from := (load_from read_csv).
Abbreviation load_data := (load_data read_csv).

Lemma load_from_Returned path encs df' :
  (load_from path encs).2 = Returned df' ↔
  ∃ pre enc post df,
    encs = (pre ++ enc :: post)%list
    ∧ (∀ e, e ∈ pre → read_csv path e = UnicodeDecodeError)
    ∧ read_csv path enc = Parsed df ∧ df' = trimmed df.
Proof.
  induction encs as [|enc encs IH]; simpl.
  - split; [done|]. intros (pre & ? & ? & ? & Hnil & _). by destruct pre.
  - destruct (read_csv path enc) as [df| |e] eqn:Hread; simpl.
    + split.
      * intros [= <-]. exists [], enc, encs, df. split; [done|].
        split; [|done]. intros e He. inversion He.
      * intros ([|e pre] & enc' & post & df0 & Heq & Hpre & Hp & ->);
          simplify_eq/=; [congruence|].
        rewrite Hpre in Hread by left. done.
    + destruct (load_from path encs) as [out res] eqn:Hrest. simpl in *.
      rewrite IH. split.
      * intros (pre & enc' & post & df & -> & Hpre & Hp & ->).
        exists (enc :: pre), enc', post, df. split; [done|].
        split; [|done]. intros e [->|He]%elem_of_cons; auto.
      * intros ([|e pre] & enc' & post & df0 & Heq & Hpre & Hp & ->);
          simplify_eq/=; [congruence|].
        exists pre, enc', post, df0. split; [done|].
        split; [|done]. intros e' He'. apply Hpre. by right.
    + split; [done|].
      intros ([|e' pre] & enc' & post & df0 & Heq & Hpre & Hp & ->);
        simplify_eq/=; [congruence|].
      rewrite Hpre in Hread by left. done.
Qed.

Lemma load_from_ValueError path encs msg :
  (load_from path encs).2 = ValueError msg ↔
  (∀ e, e ∈ encs → read_csv path e = UnicodeDecodeError)
  ∧ msg = "Unable to read the CSV. Try re-saving as UTF-8.".
Proof.
  induction encs as [|enc encs IH]; simpl.
  - split.
    + intros [= <-]. split; [|done]. intros e He. inversion He.
    + by intros [_ ->].
  - destruct (read_csv path enc) as [df| |e] eqn:Hread; simpl.
    + split; [done|]. intros [Hall _]. rewrite Hall in Hread by left. done.
    + destruct (load_from path encs) as [out res] eqn:Hrest. simpl in *.
      rewrite IH. split.
      * intros [Hall ->]. split; [|done].
        intros e [->|He]%elem_of_cons; auto.
      * intros [Hall ->]. split; [|done].
        intros e He. apply Hall. by right.
    + split; [done|]. intros [Hall _]. rewrite Hall in Hread by left. done.
Qed.

Lemma load_from_Propagated path encs err :
  (load_from path encs).2 = Propagated err ↔
  ∃ pre enc post,
    encs = (pre ++ enc :: post)%list
    ∧ (∀ e, e ∈ pre → read_csv path e = UnicodeDecodeError)
    ∧ read_csv path enc = OtherError err.
Proof.
  induction encs as [|enc encs IH]; simpl.
  - split; [done|]. intros (pre & ? & ? & Hnil & _). by destruct pre.
  - destruct (read_csv path enc) as [df| |e] eqn:Hread; simpl.
    + split; [done|].
      intros ([|e pre] & enc' & post & Heq & Hpre & Hp);
        simplify_eq/=; [congruence|].
      rewrite Hpre in Hread by left. done.
    + destruct (load_from path encs) as [out res] eqn:Hrest. simpl in *.
      rewrite IH. split.
      * intros (pre & enc' & post & -> & Hpre & Hp).
        exists (enc :: pre), enc', post. split; [done|].
        split; [|done]. intros e [->|He]%elem_of_cons; auto.
      * intros ([|e pre] & enc' & post & Heq & Hpre & Hp);
          simplify_eq/=; [congruence|].
        exists pre, enc', post. split; [done|].
        split; [|done]. intros e' He'. apply Hpre. by right.
    + split.
      * intros [= <-]. exists [], enc, encs. split; [done|].
        split; [|done]. intros e' He'. inversion He'.
      * intros ([|e' pre] & enc' & post & Heq & Hpre & Hp);
          simplify_eq/=; [congruence|].
        rewrite Hpre in Hread by left. done.
Qed.

(** C8 (as amended).  [load_data] tries utf-8, latin1 and cp1252 in this
    order, moving to the next encoding only after a decoding error.  It
    returns the table of the first encoding that parses, with every column
    name trimmed of the whitespace at its two ends; it raises its
    [ValueError] exactly when every encoding ends in a decoding error; and
    an error of another kind at the encoding being tried leaves the
    function as it is, with the later encodings not tried. *)
Theorem load_data_first_decodable (path : string) :
  encodings = ["utf-8"; "latin1"; "cp1252"]
  ∧ (∀ df', (load_data path).2 = Returned df' ↔
       ∃ pre enc post df,
         encodings = (pre ++ enc :: post)%list
         ∧ (∀ e, e ∈ pre → read_csv path e = UnicodeDecodeError)
         ∧ read_csv path enc = Parsed df
         ∧ columns df' = strip <$> columns df ∧ body df' = body df)
  ∧ (∀ s, (∃ pre post, s = pre +:+ strip s +:+ post ∧ blank pre ∧ blank post)
          ∧ (∀ c, first_char (strip s) = Some c → py_isspace c = false)
          ∧ (∀ c, last_char (strip s) = Some c → py_isspace c = false))
  ∧ ((∃ msg, (load_data path).2 = ValueError msg) ↔
       ∀ enc, enc ∈ encodings → read_csv path enc = UnicodeDecodeError)
  ∧ (∀ err, (load_data path).2 = Propagated err ↔
       ∃ pre enc post,
         encodings = (pre ++ enc :: post)%list
         ∧ (∀ e, e ∈ pre → read_csv path e = UnicodeDecodeError)
         ∧ read_csv path enc = OtherError err).
Proof.
  split; [done|]. split; [|split; [|split]].
  - intros df'. unfold load_data. rewrite load_from_Returned. split.
    + intros (pre & enc & post & df & ? & ? & ? & ->). by exists pre, enc, post, df.
    + intros (pre & enc & post & df & ? & ? & ? & Hc & Hb).
      exists pre, enc, post, df. repeat (split; [done|]).
      destruct df'. simpl in *. by subst.
  - apply strip_spec.
  - unfold load_data. split.
    + intros [msg Hmsg]. by apply load_from_ValueError in Hmsg as [? _].
    + intros Hall. eexists. by apply load_from_ValueError.
  - intros err. apply load_from_Propagated.
Qed.
End LoaderFacts.

(** C8, as first stated, has [load_data] raise its own error whenever no
    encoding yields a table.  For a file that is not there no read yields
    a table, and the error that leaves [load_data] is the one of the first
    read. *)
Lemma load_data_missing_file :
  ¬ (∀ path,
       (∃ msg, (load_data missing_file path).2 = ValueError msg) ↔
       ∀ enc, enc ∈ encodings → ∀ df, missing_file path enc ≠ Parsed df).
Proof.
  intros H. destruct (proj2 (H "sales.csv")) as [msg Hmsg]; [done|].
  discriminate Hmsg.
Qed.

(** ** The argument of [clean_data] is left as it was *)

Section ObjectFacts.
Implicit Types (h : gmap positive DataFrame) (l : positive) (df : DataFrame).

Lemma fresh_not_allocated h : h !! fresh (dom h) = None.
Proof. apply not_elem_of_dom, is_fresh. Qed.

(** A method call allocates: the tables of an earlier store [h0] stay as
    they are, and the new reference is none of theirs. *)
Lemma method_spec f h0 h l df :
  h0 ⊆ h → h !! l = Some df →
  ∃ l' h', Objects.method f l h = Some (l', h')
    ∧ h0 ⊆ h' ∧ h' !! l' = Some (f df) ∧ h0 !! l' = None.
Proof.
  intros Hsub Hl. unfold Objects.method. rewrite Hl.
  pose proof (fresh_not_allocated h) as Hfresh.
  eexists _, _. split; [done|]. split; [|split].
  - etrans; [exact Hsub|]. by apply insert_subseteq.
  - apply lookup_insert_eq.
  - destruct (h0 !! fresh (dom h)) as [df0|] eqn:E; [|done].
    by rewrite (lookup_weaken _ _ _ _ E Hsub) in Hfresh.
Qed.

(** A column assignment changes the table it is applied to, in place, and
    no table of an earlier store that does not hold that reference. *)
Lemma setitem_spec f h0 h l df :
  h0 ⊆ h → h0 !! l = None → h !! l = Some df →
  ∃ h', Objects.setitem f l h = Some (tt, h')
    ∧ h0 ⊆ h' ∧ h' !! l = Some (f df).
Proof.
  intros Hsub Hnone Hl. unfold Objects.setitem. rewrite Hl.
  eexists. split; [done|]. split; [|apply lookup_insert_eq].
  apply map_subseteq_spec. intros k v Hk.
  rewrite lookup_insert_ne by congruence.
  by eapply lookup_weaken.
Qed.

Variable parse_number : string → option Qc.
Variable parse_datetime : string → option Timestamp.

(** C10.  Called with a reference to a table, [clean_data] returns a
    reference to a new table, the cleaned one, and every table that the
    store held before the call, the argument among them, is the same after
    it. *)
Theorem clean_data_leaves_argument h l df :
  h !! l = Some df →
  ∃ l' h',
    Objects.clean_data parse_number parse_datetime l h = Some (l', h')
    ∧ h' !! l = Some df
    ∧ l' ≠ l
    ∧ h' !! l' = Some (clean_data parse_number parse_datetime df)
    ∧ ∀ k, k ∈ dom h → h' !! k = h !! k.
Proof.
  intros Hl. unfold Objects.clean_data, Objects.copy, Objects.bind, Objects.ret.
  destruct (method_spec id h h l df) as (l1 & h1 & -> & S1 & L1 & N1); [done..|].
  destruct (setitem_spec (assign_Sales parse_number) h h1 l1 _ S1 N1 L1)
    as (h2 & -> & S2 & L2).
  destruct (method_spec dropna_Sales h h2 l1 _ S2 L2)
    as (l2 & h3 & -> & S3 & L3 & N3).
  destruct (setitem_spec (assign_Order_Date parse_datetime) h h3 l2 _ S3 N3 L3)
    as (h4 & -> & S4 & L4).
  destruct (setitem_spec assign_Year h h4 l2 _ S4 N3 L4) as (h5 & -> & S5 & L5).
  destruct (setitem_spec assign_Month h h5 l2 _ S5 N3 L5) as (h6 & -> & S6 & L6).
  destruct (setitem_spec assign_Order_Month h h6 l2 _ S6 N3 L6)
    as (h7 & -> & S7 & L7).
  destruct (method_spec drop_duplicates h h7 l2 _ S7 L7)
    as (l3 & h8 & -> & S8 & L8 & N8).
  exists l3, h8. split; [done|]. split; [|split; [|split]].
  - by eapply lookup_weaken.
  - congruence.
  - exact L8.
  - intros k [v Hk]%elem_of_dom. rewrite Hk. by eapply lookup_weaken.
Qed.
End ObjectFacts.

(** A store with one table of two equal rows: after the call the table
    still has both, and the new table has one. *)
Lemma clean_data_leaves_two_rows :
  let raw := [raw_row "2023-01-05" "100" "East" "C1" "Alice";
              raw_row "2023-01-05" "100" "East" "C1" "Alice"] in
  ∃ l' h',
    Objects.clean_data whole_number iso_date 1%positive {[1%positive := raw]}
    = Some (l', h')
    ∧ h' !! 1%positive = Some raw
    ∧ l' ≠ 1%positive
    ∧ h' !! l' = Some (clean_data whole_number iso_date raw)
    ∧ ∀ k, k ∈ dom ({[1%positive := raw]} : gmap positive DataFrame) →
           h' !! k = ({[1%positive := raw]} : gmap positive DataFrame) !! k.
Proof.
  intros raw.
  apply (clean_data_leaves_argument whole_number iso_date {[1%positive := raw]}
           1%positive raw).
  reflexivity.
Defined.

(** ** The pipeline on three rows

    The row with the amount [bad] is dropped; the total is 400 for one
    customer; the monthly series has the two Januaries; the growth of
    January is 200 percent. *)
Lemma three_rows_report :
  let df := clean_data whole_number iso_date three_rows in
  let yoy_df := yoy_pivot (yearly_trend df) in
  Order_Month <$> df = [Some "2023-01"; Some "2024-01"]
  ∧ this (Total_Sales (compute_kpis df)) = 400%Q
  ∧ Total_Orders (compute_kpis df) = 2%nat
  ∧ Unique_Customers (compute_kpis df) = 1%nat
  ∧ (λ x, (x.1, this x.2)) <$> monthly_trend df
    = [("2023-01", 100%Q); ("2024-01", 300%Q)]
  ∧ index yoy_df = [1]
  ∧ YoY_Growth yoy_df = Some [Some (Finite (Qc_of_Z 200))].
Proof.
  intros df yoy_df. repeat split; try (vm_compute; reflexivity).
  assert (YoY_Growth yoy_df
          = Some [Some (growth (Finite (Qc_of_Z 300)) (Finite (Qc_of_Z 100)))])
    as -> by (vm_compute; reflexivity).
  rewrite growth_finite by (intros H; discriminate (f_equal this H)).
  apply (f_equal (λ q, Some [Some (Finite q)])), Qc_is_canon. reflexivity.
Qed.

(** * Further properties of the pipeline *)

(** ** Duplicate removal keeps order *)

Lemma drop_duplicates_from_sublist seen df :
  drop_duplicates_from seen df `sublist_of` df.
Proof.
  revert seen. induction df as [|r df IH]; intros seen; simpl.
  - constructor.
  - destruct (decide (r ∈ seen)).
    + apply sublist_cons, IH.
    + apply sublist_skip, IH.
Qed.

Lemma drop_duplicates_from_NoDup seen df :
  NoDup df → (∀ r, r ∈ df → r ∉ seen) → drop_duplicates_from seen df = df.
Proof.
  intros Hnd. revert seen. induction Hnd as [|r df Hr Hnd IH]; intros seen Hseen.
  - done.
  - simpl. rewrite decide_False by (apply Hseen; left).
    f_equal. apply IH. intros r' Hr'. rewrite not_elem_of_cons. split.
    + intros ->. done.
    + apply Hseen. by right.
Qed.

Lemma drop_duplicates_NoDup df : NoDup df → drop_duplicates df = df.
Proof.
  intros Hnd. apply drop_duplicates_from_NoDup; [done|].
  intros r _ Hr. inversion Hr.
Qed.

Section CleanerMore.
Variable parse_number : string → option Qc.
Variable parse_datetime : string → option Timestamp.

Abbreviation to_numeric := (to_numeric parse_number).
Abbreviation to_datetime := (to_datetime parse_datetime).
Abbreviation cleaned := (cleaned_row parse_number parse_datetime).
Abbreviation clean_data := (clean_data parse_number parse_datetime).

Lemma to_datetime_idem c : to_datetime (to_datetime c) = to_datetime c.
Proof. destruct c; simpl; [done| |done]. by destruct (parse_datetime s). Qed.

Lemma cleaned_row_idem r : cleaned (cleaned r) = cleaned r.
Proof.
  unfold cleaned_row. simpl.
  by rewrite to_datetime_idem, to_numeric_idem.
Qed.

(** X1.  Cleaning a cleaned table changes nothing: the amounts are numbers
    already, the dates are timestamps or missing, the derived columns come
    out the same and there is no duplicate left to remove. *)
Theorem clean_data_idempotent (raw : DataFrame) :
  clean_data (clean_data raw) = clean_data raw.
Proof.
  rewrite (clean_data_eq _ _ (clean_data raw)).
  assert (cleaned <$>
            filter (λ r, isna (to_numeric (Sales r)) = false) (clean_data raw)
          = clean_data raw) as ->.
  { assert (∀ r, r ∈ clean_data raw →
              isna (to_numeric (Sales r)) = false ∧ cleaned r = r) as Hfix.
    { intros r (r0 & _ & Hna & ->)%elem_of_clean_data. split.
      - simpl. by rewrite to_numeric_idem.
      - apply cleaned_row_idem. }
    induction (clean_data raw) as [|r df IH]; [done|].
    destruct (Hfix r) as [Hna Hr]; [left|].
    rewrite filter_cons_True by done. rewrite fmap_cons, Hr. f_equal.
    apply IH. intros r' Hr'. apply Hfix. by right. }
  apply drop_duplicates_NoDup. rewrite clean_data_eq.
  apply NoDup_drop_duplicates.
Qed.

(** X2.  The cleaned table lists its rows in the order of the input: it is
    a subsequence of the cleaned images of the input rows, so it has no
    more rows than the input has rows with an amount that parses. *)
Theorem clean_data_keeps_order (raw : DataFrame) :
  clean_data raw `sublist_of` (cleaned <$> raw)
  ∧ (length (clean_data raw)
     ≤ length (filter (λ r, isna (to_numeric (Sales r)) = false) raw))%nat
  ∧ (length (clean_data raw) ≤ length raw)%nat.
Proof.
  rewrite clean_data_eq.
  assert (drop_duplicates
            (cleaned <$> filter (λ r, isna (to_numeric (Sales r)) = false) raw)
          `sublist_of`
          (cleaned <$> filter (λ r, isna (to_numeric (Sales r)) = false) raw))
    as Hsub by apply drop_duplicates_from_sublist.
  split; [|split].
  - etrans; [exact Hsub|]. apply fmap_sublist, sublist_filter.
  - apply sublist_length in Hsub. by rewrite length_fmap in Hsub.
  - apply sublist_length in Hsub. rewrite length_fmap in Hsub.
    etrans; [exact Hsub|]. apply length_filter.
Qed.
End CleanerMore.

(** ** KPIs of a cleaned table *)

Lemma length_remove_dups_le {A} `{EqDecision A} (l : list A) :
  (length (remove_dups l) ≤ length l)%nat.
Proof.
  apply submseteq_length, NoDup_submseteq; [apply NoDup_remove_dups|].
  intros x. by rewrite elem_of_remove_dups.
Qed.

Lemma length_omap_le {A B} (f : A → option B) (l : list A) :
  (length (omap f l) ≤ length l)%nat.
Proof.
  induction l as [|x l IH]; [done|]. simpl.
  destruct (f x); simpl; [apply le_n_S | apply Nat.le_le_succ_r]; exact IH.
Qed.

Lemma nunique_le_length {A} `{EqDecision A} (col : list (option A)) :
  (nunique col ≤ length col)%nat.
Proof.
  unfold nunique. etrans; [apply length_remove_dups_le|]. apply length_omap_le.
Qed.

Lemma length_sales_values (df : DataFrame) :
  (∀ r, r ∈ df → ∃ q, Sales r = Number q) →
  length (omap sales_value df) = length df.
Proof.
  induction df as [|r df IH]; intros Hnum; [done|]. simpl.
  destruct (Hnum r) as [q Hq]; [left|].
  unfold sales_value at 1. rewrite Hq. simpl. f_equal.
  apply IH. intros r' Hr'. apply Hnum. by right.
Qed.

Lemma sales_values_Forall2 (df : DataFrame) :
  (∀ r, r ∈ df → ∃ q, Sales r = Number q) →
  Forall2 (λ r q, Sales r = Number q) df (omap sales_value df).
Proof.
  induction df as [|r df IH]; intros Hnum; [constructor|]. simpl.
  destruct (Hnum r) as [q Hq]; [left|].
  unfold sales_value at 1. rewrite Hq. simpl. constructor; [done|].
  apply IH. intros r' Hr'. apply Hnum. by right.
Qed.

Section KpiFacts.
Variable parse_number : string → option Qc.
Variable parse_datetime : string → option Timestamp.

Abbreviation to_numeric := (to_numeric parse_number).
Abbreviation clean_data := (clean_data parse_number parse_datetime).

(** X3.  On a cleaned table the order count is the number of rows.  The
    customer count is the number of distinct customer identifiers found on
    input rows whose amount parses (a customer seen only on dropped rows
    is not counted, a missing identifier neither), and it is at most the
    order count.  The average order value is the mean of the amounts of
    all rows, none being missing; for the empty table the total is zero
    and the average is not-a-number. *)
Theorem compute_kpis_cleaned (raw : DataFrame) :
  let df := clean_data raw in
  let kpis := compute_kpis df in
  Total_Orders kpis = length df
  ∧ (∃ ids, NoDup ids ∧ length ids = Unique_Customers kpis
            ∧ ∀ c, c ∈ ids ↔
                   ∃ r, r ∈ raw ∧ to_numeric (Sales r) ≠ NaN
                        ∧ Customer_ID r = Some c)
  ∧ (Unique_Customers kpis ≤ Total_Orders kpis)%nat
  ∧ (df = [] → Total_Sales kpis = 0%Qc ∧ Average_Order_Value kpis = NotANumber)
  ∧ (df ≠ [] →
     ∃ amounts, Forall2 (λ r q, Sales r = Number q) df amounts
                ∧ Average_Order_Value kpis
                  = Finite (Qcsum amounts / Qc_of_Z (Z.of_nat (length df)))%Qc).
Proof.
  intros df kpis. unfold kpis. simpl.
  split; [done|]. split; [|split; [|split]].
  - exists (remove_dups (omap id (Customer_ID <$> df))).
    split; [apply NoDup_remove_dups|]. split; [done|].
    intros c. rewrite elem_of_remove_dups, omap_id_fmap, list_elem_of_omap.
    unfold df. setoid_rewrite elem_of_clean_data. split.
    + intros (r' & (r & Hr & Hna & ->) & Hc). exists r.
      by rewrite <-isna_false.
    + intros (r & Hr & Hna & Hc).
      exists (cleaned_row parse_number parse_datetime r). split; [|exact Hc].
      exists r. by rewrite isna_false.
  - etrans; [apply nunique_le_length|]. by rewrite length_fmap.
  - intros ->. done.
  - intros Hne. unfold mean_Sales.
    pose proof (clean_data_Sales parse_number parse_datetime raw) as Hnum.
    pose proof (length_sales_values df Hnum) as Hlen.
    pose proof (sales_values_Forall2 df Hnum) as Hall.
    exists (omap sales_value df). split; [done|].
    destruct (omap sales_value df) as [|q l] eqn:E.
    + destruct df; [done|discriminate Hlen].
    + by rewrite Hlen.
Qed.
End KpiFacts.

(** ** Sorting a grouped table again *)

#[global] Instance year_month_le_trans : Transitive year_month_le.
Proof. intros a b c. unfold year_month_le. lia. Qed.

#[global] Instance year_month_le_total : Total year_month_le.
Proof. intros a b. unfold year_month_le. lia. Qed.

#[global] Instance year_month_le_antisymm : AntiSymm (=) year_month_le.
Proof.
  intros [y m] [y' m']. unfold year_month_le. simpl. intros ? ?.
  f_equal; lia.
Qed.

Section SortAgain.
Context {K : Type} `{EqDecision K}.
Variable le : relation K.
Context `{∀ x y, Decision (le x y)}
        `{!Transitive le} `{!Total le} `{!AntiSymm (=) le}.
Variable key : row → option K.

Lemma groupby_sum_sorted df :
  StronglySorted (λ a b, le a.1 b.1) (groupby_sum le key df).
Proof.
  unfold groupby_sum.
  apply (StronglySorted_fmap _ le); [done|].
  by apply group_keys_sorted.
Qed.

(** The groups come out of [groupby] in ascending order of their labels,
    one row per label, so the [sort_values] on the label that follows
    leaves the table as it is. *)
Lemma sort_by_label_groupby_sum df :
  sort_by_label le (groupby_sum le key df) = groupby_sum le key df.
Proof.
  apply (StronglySorted_unique_strong (λ a b : K * Qc, le a.1 b.1)).
  - intros [k1 s1] [k2 s2] H1 H2 Hle Hge. simpl in *.
    rewrite sort_by_label_Permutation in H1.
    assert (k1 = k2) as <- by (by apply (anti_symm le)).
    apply elem_of_groupby_sum in H1 as [_ ->]; [|done..].
    apply elem_of_groupby_sum in H2 as [_ ->]; [|done..].
    done.
  - apply StronglySorted_merge_sort.
    + by apply on_label_trans.
    + by apply on_label_total.
  - apply groupby_sum_sorted.
  - apply sort_by_label_Permutation.
Qed.
End SortAgain.

(** X4.  In [monthly_trend] and in [yearly_trend] the [sort_values] after
    the [groupby] is a no-op: each is the grouped table itself, which has
    one row per label, in ascending order of the labels, with the sum of
    the sales of the rows under that label. *)
Theorem trends_are_grouped_sums (df : DataFrame) :
  monthly_trend df = groupby_sum String.le Order_Month df
  ∧ yearly_trend df = groupby_sum year_month_le Year_Month df
  ∧ (∀ k s, (k, s) ∈ monthly_trend df ↔
       (∃ r, r ∈ df ∧ Order_Month r = Some k)
       ∧ s = sum_Sales (filter (λ r, Order_Month r = Some k) df))
  ∧ (∀ ym s, (ym, s) ∈ yearly_trend df ↔
       (∃ r, r ∈ df ∧ Year_Month r = Some ym)
       ∧ s = sum_Sales (filter (λ r, Year_Month r = Some ym) df)).
Proof.
  assert (monthly_trend df = groupby_sum String.le Order_Month df) as Hm
    by (apply sort_by_label_groupby_sum; apply _).
  assert (yearly_trend df = groupby_sum year_month_le Year_Month df) as Hy
    by (apply sort_by_label_groupby_sum; apply _).
  split; [done|]. split; [done|]. rewrite Hm, Hy. split.
  - intros k s. apply elem_of_groupby_sum; apply _.
  - intros ym s. apply elem_of_groupby_sum; apply _.
Qed.

(** ** The yearly series of a cleaned table *)

Lemma filter_all {A} (P : A → Prop) `{∀ x, Decision (P x)} (l : list A) :
  (∀ x, x ∈ l → P x) → filter P l = l.
Proof.
  induction l as [|x l IH]; intros HP; [done|].
  rewrite filter_cons_True by (apply HP; left). f_equal.
  apply IH. intros y Hy. apply HP. by right.
Qed.

(** A condition and its negation split the sum of a table. *)
Lemma sum_Sales_filter_not (P : row → Prop) `{∀ r, Decision (P r)} (df : DataFrame) :
  sum_Sales df
  = (sum_Sales (filter P df) + sum_Sales (filter (λ r, ¬ P r) df))%Qc.
Proof.
  rewrite <-sum_Sales_filter_or by tauto. f_equal. symmetry.
  apply filter_all. intros r _. destruct (decide (P r)); tauto.
Qed.

Section YearlyFacts.
Variable parse_number : string → option Qc.
Variable parse_datetime : string → option Timestamp.

Abbreviation clean_data := (clean_data parse_number parse_datetime).

(** In a cleaned table the pair of year and month is that of the date. *)
Lemma clean_data_Year_Month raw r :
  r ∈ clean_data raw →
  Year_Month r
  = match Order_Date r with
    | Stamp t => Some (ts_year t, ts_month t)
    | _ => None
    end.
Proof.
  intros Hr. unfold Year_Month.
  destruct (clean_data_derived _ _ _ _ Hr) as (-> & -> & _ & _).
  by destruct (Order_Date r).
Qed.

(** X5.  The yearly series of a cleaned table has one row for every
    (year, month) of a dated row, in strictly ascending order of year and
    then month.  Rows without a date are in no group: the revenues of the
    series and the sales of the undated rows together make up the total
    revenue of the KPIs. *)
Theorem yearly_trend_of_cleaned (raw : DataFrame) :
  let df := clean_data raw in
  StronglySorted (λ a b, year_month_le a b ∧ a ≠ b) (yearly_trend df).*1
  ∧ (∀ y m, (y, m) ∈ (yearly_trend df).*1 ↔
       ∃ r t, r ∈ df ∧ Order_Date r = Stamp t ∧ ts_year t = y ∧ ts_month t = m)
  ∧ (Qcsum (yearly_trend df).*2
     + sum_Sales (filter (λ r, Order_Date r = NaT) df))%Qc
    = Total_Sales (compute_kpis df).
Proof.
  intros df. unfold yearly_trend.
  rewrite sort_by_label_groupby_sum by apply _.
  split; [|split].
  - rewrite groupby_sum_labels. apply StronglySorted_NoDup_strict.
    + apply group_keys_sorted; apply _.
    + apply NoDup_group_keys.
  - intros y m. rewrite groupby_sum_labels, elem_of_group_keys. split.
    + intros (r & Hr & Hym). rewrite (clean_data_Year_Month raw) in Hym by done.
      destruct (Order_Date r) as [| |t] eqn:Hd; [done..|].
      injection Hym as <- <-. by exists r, t.
    + intros (r & t & Hr & Hd & <- & <-). exists r. split; [done|].
      rewrite (clean_data_Year_Month raw) by done. by rewrite Hd.
  - rewrite groupby_sum_total. simpl.
    rewrite (sum_Sales_filter_not (λ r, is_Some (Year_Month r)) df).
    f_equal. f_equal. apply filter_ext_elem. intros r Hr.
    rewrite (clean_data_Year_Month raw) by done.
    destruct (clean_data_derived _ _ _ _ Hr) as (_ & _ & _ & Htext).
    destruct (Order_Date r) as [|s|t] eqn:Hd.
    + split; [|done]. by intros _ [? ?].
    + by destruct (Htext s).
    + split; [done|]. intros Hn. destruct Hn. eauto.
Qed.
End YearlyFacts.

(** ** The monthly and the yearly series side by side *)

Section TrendsAgree.
Variable parse_number : string → option Qc.
Variable parse_datetime : string → option Timestamp.

Abbreviation clean_data := (clean_data parse_number parse_datetime).

Lemma elem_of_yearly_trend df ym s :
  (ym, s) ∈ yearly_trend df ↔
  (∃ r, r ∈ df ∧ Year_Month r = Some ym)
  ∧ s = sum_Sales (filter (λ r, Year_Month r = Some ym) df).
Proof.
  unfold yearly_trend. rewrite sort_by_label_Permutation.
  apply elem_of_groupby_sum; apply _.
Qed.

Lemma elem_of_monthly_trend df k s :
  (k, s) ∈ monthly_trend df ↔
  (∃ r, r ∈ df ∧ Order_Month r = Some k)
  ∧ s = sum_Sales (filter (λ r, Order_Month r = Some k) df).
Proof.
  rewrite monthly_trend_Permutation.
  apply elem_of_groupby_sum; apply _.
Qed.

(** With years of four digits and months of two, a row of a cleaned table
    is in the group of a (year, month) pair exactly when its text key is
    the key of that pair. *)
Lemma clean_data_same_group raw r y m :
  (∀ r t, r ∈ clean_data raw → Order_Date r = Stamp t →
          0 ≤ ts_year t < 10000 ∧ 0 ≤ ts_month t < 100) →
  0 ≤ y < 10000 → 0 ≤ m < 100 →
  r ∈ clean_data raw →
  Year_Month r = Some (y, m) ↔ Order_Month r = Some (year_month_key y m).
Proof.
  intros Hvalid Hy Hm Hr.
  rewrite (clean_data_Year_Month _ _ raw) by done.
  destruct (clean_data_derived _ _ _ _ Hr) as (_ & _ & -> & Htext).
  destruct (Order_Date r) as [|s|t] eqn:Hd; cbn [dt_to_period_M_str].
  - split; [done|]. intros H. apply (inj Some) in H. symmetry in H.
    by apply year_month_key_not_NaT in H.
  - by destruct (Htext s).
  - destruct (Hvalid r t Hr Hd) as [Hty Htm]. unfold period_str. split.
    + by intros [= -> ->].
    + intros H. apply (inj Some) in H.
      apply year_month_key_inj in H as [-> ->]; done.
Qed.

(** X6.  When the dates of a cleaned table have years of four digits and
    months of two (as every pandas timestamp has), the two series agree:
    each row of the yearly series is found in the monthly series under the
    key of its year and month with the same revenue, and each row of the
    monthly series other than the one keyed [NaT] comes from a row of the
    yearly series. *)
Theorem monthly_and_yearly_agree (raw : DataFrame) :
  (∀ r t, r ∈ clean_data raw → Order_Date r = Stamp t →
          0 ≤ ts_year t < 10000 ∧ 0 ≤ ts_month t < 100) →
  (∀ y m s, (y, m, s) ∈ yearly_trend (clean_data raw) →
            (year_month_key y m, s) ∈ monthly_trend (clean_data raw))
  ∧ (∀ k s, (k, s) ∈ monthly_trend (clean_data raw) → k ≠ "NaT" →
            ∃ y m, k = year_month_key y m
                   ∧ (y, m, s) ∈ yearly_trend (clean_data raw)).
Proof.
  intros Hvalid. split.
  - intros y m s [(r0 & Hr0 & Hym) ->]%elem_of_yearly_trend.
    assert (0 ≤ y < 10000 ∧ 0 ≤ m < 100) as [Hy Hm].
    { rewrite (clean_data_Year_Month _ _ raw) in Hym by done.
      destruct (Order_Date r0) as [| |t] eqn:Hd; [done..|].
      injection Hym as <- <-. by apply (Hvalid r0). }
    apply elem_of_monthly_trend. split.
    + exists r0. split; [done|]. by apply (clean_data_same_group raw).
    + f_equal. apply filter_ext_elem. intros r Hr.
      by apply (clean_data_same_group raw).
  - intros k s [(r0 & Hr0 & Hk) ->]%elem_of_monthly_trend Hnat.
    destruct (clean_data_derived _ _ _ _ Hr0) as (_ & _ & Hom & Htext).
    rewrite Hom in Hk.
    destruct (Order_Date r0) as [|s0|t] eqn:Hd; cbn [dt_to_period_M_str] in Hk;
      apply (inj Some) in Hk; subst k.
    + done.
    + by destruct (Htext s0).
    + destruct (Hvalid r0 t Hr0 Hd) as [Hy Hm].
      exists (ts_year t), (ts_month t). split; [done|].
      apply elem_of_yearly_trend. split.
      * exists r0. split; [done|].
        rewrite (clean_data_Year_Month _ _ raw) by done. by rewrite Hd.
      * f_equal. apply filter_ext_elem. intros r Hr. symmetry.
        by apply (clean_data_same_group raw).
Qed.
End TrendsAgree.

(** The three rows of the example have dates in 2023 and 2024. *)
Lemma monthly_and_yearly_agree_three_rows :
  (∀ y m s, (y, m, s) ∈ yearly_trend (clean_data whole_number iso_date three_rows) →
            (year_month_key y m, s)
            ∈ monthly_trend (clean_data whole_number iso_date three_rows))
  ∧ (∀ k s, (k, s) ∈ monthly_trend (clean_data whole_number iso_date three_rows) →
            k ≠ "NaT" →
            ∃ y m, k = year_month_key y m
                   ∧ (y, m, s)
                     ∈ yearly_trend (clean_data whole_number iso_date three_rows)).
Proof.
  apply (monthly_and_yearly_agree whole_number iso_date three_rows).
  intros r t Hr Hd.
  assert (clean_data whole_number iso_date three_rows
          = [cleaned_row whole_number iso_date
               (raw_row "2023-01-05" "100" "East" "C1" "Alice");
             cleaned_row whole_number iso_date
               (raw_row "2024-01-05" "300" "East" "C1" "Alice")]) as Hc
    by (vm_compute; reflexivity).
  rewrite Hc in Hr.
  apply elem_of_cons in Hr as [->|Hr];
    [|apply elem_of_cons in Hr as [->|Hr]; [|inversion Hr]];
    vm_compute in Hd; injection Hd as <-; simpl; lia.
Defined.

(** ** Rankings: totals, the first row, and the row count *)

Lemma ranking_total (key : row → option string) (df : DataFrame) :
  (Qcsum (sort_by_Sales_desc (groupby_sum String.le key df)).*2
   + sum_Sales (filter (λ r, key r = None) df))%Qc
  = sum_Sales df.
Proof.
  rewrite (Qcsum_Permutation _ (groupby_sum String.le key df).*2)
    by (by rewrite ranking_Permutation).
  rewrite groupby_sum_total.
  rewrite (sum_Sales_filter_not (λ r, is_Some (key r)) df).
  f_equal. f_equal. apply list_filter_iff. intros r.
  destruct (key r); split; try done.
  intros Hn. destruct Hn. eauto.
Qed.

(** The first row of a ranking has the largest sum. *)
Lemma ranking_first_is_largest (key : row → option string) (df : DataFrame) x :
  sort_by_Sales_desc (groupby_sum String.le key df) !! 0%nat = Some x →
  ∀ k r, r ∈ df → key r = Some k →
         (sum_Sales (filter (λ r, key r = Some k) df) ≤ x.2)%Qc.
Proof.
  intros Hx k r Hr Hk.
  assert ((k, sum_Sales (filter (λ r, key r = Some k) df))
          ∈ sort_by_Sales_desc (groupby_sum String.le key df)) as Hin
    by (apply elem_of_ranking; eauto).
  pose proof (sort_by_Sales_desc_sorted (groupby_sum String.le key df)) as Hs.
  destruct (sort_by_Sales_desc (groupby_sum String.le key df)) as [|x' t];
    [inversion Hin|].
  injection Hx as ->.
  apply StronglySorted_cons in Hs as [Hall _].
  apply elem_of_cons in Hin as [<-|Hin]; [apply Qcle_refl|].
  rewrite Forall_forall in Hall. apply (Hall _ Hin).
Qed.

Lemma ranking_nonempty (key : row → option string) (df : DataFrame) r k :
  r ∈ df → key r = Some k →
  ∃ x, sort_by_Sales_desc (groupby_sum String.le key df) !! 0%nat = Some x.
Proof.
  intros Hr Hk.
  assert ((k, sum_Sales (filter (λ r, key r = Some k) df))
          ∈ sort_by_Sales_desc (groupby_sum String.le key df)) as Hin
    by (apply elem_of_ranking; eauto).
  destruct (sort_by_Sales_desc _) as [|x t]; [inversion Hin|]. by exists x.
Qed.

Lemma ranking_empty (key : row → option string) (df : DataFrame) :
  (∀ r, r ∈ df → key r = None) →
  sort_by_Sales_desc (groupby_sum String.le key df) = [].
Proof.
  intros Hnone.
  destruct (sort_by_Sales_desc _) as [|[k s] t] eqn:E; [done|].
  assert ((k, s) ∈ sort_by_Sales_desc (groupby_sum String.le key df)) as Hin
    by (rewrite E; left).
  apply elem_of_ranking in Hin as [(r & Hr & Hk) _].
  rewrite Hnone in Hk by done. done.
Qed.

Section RegionTotals.
Variable parse_number : string → option Qc.
Variable parse_datetime : string → option Timestamp.

Abbreviation clean_data := (clean_data parse_number parse_datetime).

(** X7.  The revenues of the region ranking and the sales of the rows
    without a region together make up the total revenue of the KPIs; when
    every row has a region the ranking adds up to the total. *)
Theorem revenue_by_region_total (raw : DataFrame) :
  let df := clean_data raw in
  (Qcsum (revenue_by_region df).*2
   + sum_Sales (filter (λ r, Region r = None) df))%Qc
  = Total_Sales (compute_kpis df)
  ∧ ((∀ r, r ∈ df → is_Some (Region r)) →
     Qcsum (revenue_by_region df).*2 = Total_Sales (compute_kpis df)).
Proof.
  intros df. split; [apply ranking_total|].
  intros Hall. unfold revenue_by_region.
  rewrite (Qcsum_Permutation _ (groupby_sum String.le Region df).*2)
    by (by rewrite ranking_Permutation).
  by apply groupby_sum_total_all.
Qed.
End RegionTotals.

(** ** The blocks of the report *)

#[local] Set Warnings "-clear-no-such-hyp".
Lemma elem_of_generate_insights kpis region_df top_customers_df yoy_df report b :
  generate_insights kpis region_df top_customers_df yoy_df = Returns report →
  b ∈ report ↔
  b = Summary kpis
  ∨ (∃ r, region_df !! 0%nat = Some r ∧ b = TopRegion r)
  ∨ (∃ c, top_customers_df !! 0%nat = Some c ∧ b = TopCustomer c)
  ∨ (∃ col, YoY_Growth yoy_df = Some col
            ∧ b = YoYOverview (zip (index yoy_df) col))
  ∨ b = RecommendedActions.
Proof.
  unfold generate_insights. cbv zeta.
  destruct (YoY_Growth yoy_df) as [col|]; [destruct (forallb is_null col)|];
    intros [= <-]; rewrite elem_of_cons, !elem_of_app;
    destruct region_df as [|r ?], top_customers_df as [|c ?];
    rewrite ?elem_of_cons, ?elem_of_nil; naive_solver.
Qed.

Lemma head_succ_first {A} (n : nat) (t : list A) :
  head (Z.of_nat (S n)) t !! 0%nat = t !! 0%nat.
Proof. rewrite head_of_nat. by destruct t. Qed.

Section ReportFacts.
Variable parse_number : string → option Qc.
Variable parse_datetime : string → option Timestamp.

Abbreviation clean_data := (clean_data parse_number parse_datetime).

(** X8.  Whenever [generate_insights], called as [main] calls it on a
    cleaned table and with a positive customer count, returns a report,
    the report names a top region exactly when some row has a region, and
    then a region of the table with its summed sales that no other region
    exceeds; and likewise a top customer. *)
Theorem report_names_the_largest (raw : DataFrame) (n : nat)
    (report : list report_block) :
  let df := clean_data raw in
  generate_insights (compute_kpis df) (revenue_by_region df)
                    (top_customers df (Z.of_nat (S n)))
                    (yoy_pivot (yearly_trend df)) = Returns report →
  ((∃ x, TopRegion x ∈ report) ↔ ∃ r, r ∈ df ∧ is_Some (Region r))
  ∧ (∀ g s, TopRegion (g, s) ∈ report →
       (∃ r, r ∈ df ∧ Region r = Some g)
       ∧ s = sum_Sales (filter (λ r, Region r = Some g) df)
       ∧ ∀ g' r', r' ∈ df → Region r' = Some g' →
           (sum_Sales (filter (λ r, Region r = Some g') df) ≤ s)%Qc)
  ∧ ((∃ x, TopCustomer x ∈ report) ↔ ∃ r, r ∈ df ∧ is_Some (Customer_Name r))
  ∧ (∀ c s, TopCustomer (c, s) ∈ report →
       (∃ r, r ∈ df ∧ Customer_Name r = Some c)
       ∧ s = sum_Sales (filter (λ r, Customer_Name r = Some c) df)
       ∧ ∀ c' r', r' ∈ df → Customer_Name r' = Some c' →
           (sum_Sales (filter (λ r, Customer_Name r = Some c') df) ≤ s)%Qc).
Proof.
  intros df Hreport.
  pose proof (λ b, elem_of_generate_insights _ _ _ _ _ b Hreport) as Hblocks.
  assert (∀ key : row → option string,
            (∃ x, sort_by_Sales_desc (groupby_sum String.le key df) !! 0%nat
                  = Some x)
            ↔ ∃ r, r ∈ df ∧ is_Some (key r)) as Hfirst.
  { intros key. split.
    - intros [[k s] Hx]. apply list_elem_of_lookup_2 in Hx.
      apply elem_of_ranking in Hx as [(r & Hr & Hk) _]. exists r. by rewrite Hk.
    - intros (r & Hr & [k Hk]). by eapply ranking_nonempty. }
  assert (∀ (key : row → option string) k s,
            sort_by_Sales_desc (groupby_sum String.le key df) !! 0%nat
            = Some (k, s) →
            (∃ r, r ∈ df ∧ key r = Some k)
            ∧ s = sum_Sales (filter (λ r, key r = Some k) df)
            ∧ ∀ k' r', r' ∈ df → key r' = Some k' →
                (sum_Sales (filter (λ r, key r = Some k') df) ≤ s)%Qc) as Hmax.
  { intros key k s Hx.
    pose proof (list_elem_of_lookup_2 _ _ _ Hx) as Hin.
    apply elem_of_ranking in Hin as [Hr Hs]. split; [done|]. split; [done|].
    intros k' r' Hr' Hk'.
    by apply (ranking_first_is_largest key df (k, s) Hx k' r'). }
  split; [|split; [|split]].
  - rewrite <-(Hfirst Region). split.
    + intros [x Hx]. apply Hblocks in Hx.
      destruct Hx as [?|[(r & Hr & ?)|[(? & _ & ?)|[(? & _ & ?)|?]]]];
        simplify_eq. eauto.
    + intros [x Hx]. exists x. apply Hblocks. eauto.
  - intros g s Hx. apply Hblocks in Hx.
    destruct Hx as [?|[(r & Hr & ?)|[(? & _ & ?)|[(? & _ & ?)|?]]]];
      simplify_eq. by apply Hmax.
  - rewrite <-(Hfirst Customer_Name). split.
    + intros [x Hx]. apply Hblocks in Hx.
      destruct Hx as [?|[(? & _ & ?)|[(c & Hc & ?)|[(? & _ & ?)|?]]]];
        simplify_eq. unfold top_customers in Hc.
      rewrite head_succ_first in Hc. eauto.
    + intros [x Hx]. exists x. apply Hblocks.
      right. right. left. exists x. split; [|done].
      unfold top_customers. by rewrite head_succ_first.
  - intros c s Hx. apply Hblocks in Hx.
    destruct Hx as [?|[(? & _ & ?)|[(c0 & Hc & ?)|[(? & _ & ?)|?]]]];
      simplify_eq. unfold top_customers in Hc.
    rewrite head_succ_first in Hc. by apply Hmax.
Qed.
End ReportFacts.

(** The three rows of the example have a growth value for January, so the
    report is returned; the customer count is the default one. *)
Lemma report_names_the_largest_three_rows :
  let df := clean_data whole_number iso_date three_rows in
  ∃ report,
    generate_insights (compute_kpis df) (revenue_by_region df)
                      (top_customers df default_n)
                      (yoy_pivot (yearly_trend df)) = Returns report
    ∧ ((∃ x, TopRegion x ∈ report) ↔ ∃ r, r ∈ df ∧ is_Some (Region r))
    ∧ (∀ g s, TopRegion (g, s) ∈ report →
         (∃ r, r ∈ df ∧ Region r = Some g)
         ∧ s = sum_Sales (filter (λ r, Region r = Some g) df)
         ∧ ∀ g' r', r' ∈ df → Region r' = Some g' →
             (sum_Sales (filter (λ r, Region r = Some g') df) ≤ s)%Qc)
    ∧ ((∃ x, TopCustomer x ∈ report) ↔ ∃ r, r ∈ df ∧ is_Some (Customer_Name r))
    ∧ (∀ c s, TopCustomer (c, s) ∈ report →
         (∃ r, r ∈ df ∧ Customer_Name r = Some c)
         ∧ s = sum_Sales (filter (λ r, Customer_Name r = Some c) df)
         ∧ ∀ c' r', r' ∈ df → Customer_Name r' = Some c' →
             (sum_Sales (filter (λ r, Customer_Name r = Some c') df) ≤ s)%Qc).
Proof.
  intros df.
  assert (∃ report,
            generate_insights (compute_kpis df) (revenue_by_region df)
                              (top_customers df (Z.of_nat 10))
                              (yoy_pivot (yearly_trend df)) = Returns report)
    as [report Hreport].
  { unfold generate_insights.
    assert (∃ g, YoY_Growth (yoy_pivot (yearly_trend df)) = Some [Some (Finite g)])
      as [g ->] by (eexists; vm_compute; reflexivity).
    simpl. eauto. }
  exists report. split; [exact Hreport|].
  exact (report_names_the_largest whole_number iso_date three_rows 9 report
           Hreport).
Defined.

(** X9.  How many rows [top_customers] returns.  A count of zero gives no
    row; a count that reaches the number [d] of distinct customer names
    gives the whole ranking; a smaller count gives the first rows of what
    a larger count gives; and a negative count [-k] does not fail but
    gives the ranking without its last [k] rows, [d - k] rows in all. *)
Theorem top_customers_row_count (df : DataFrame) (n m k : nat) :
  let d := nunique (Customer_Name <$> df) in
  let everyone := sort_by_Sales_desc (groupby_sum String.le Customer_Name df) in
  length everyone = d
  ∧ top_customers df 0 = []
  ∧ ((d ≤ n)%nat → top_customers df (Z.of_nat n) = everyone)
  ∧ ((n ≤ m)%nat →
     top_customers df (Z.of_nat n) = take n (top_customers df (Z.of_nat m)))
  ∧ top_customers df (- Z.of_nat (S k)) = take (d - S k) everyone
  ∧ length (top_customers df (- Z.of_nat (S k))) = (d - S k)%nat.
Proof.
  intros d everyone.
  assert (length everyone = d) as Hlen by apply length_ranking.
  assert (top_customers df (- Z.of_nat (S k)) = take (d - S k) everyone) as Hneg.
  { unfold top_customers, head. rewrite decide_False by lia.
    fold everyone. rewrite Hlen. f_equal. lia. }
  split; [done|]. split; [|split; [|split; [|split]]].
  - done.
  - intros Hd. unfold top_customers. rewrite head_of_nat.
    apply take_ge. fold everyone. lia.
  - intros Hnm. unfold top_customers. rewrite !head_of_nat, take_take.
    f_equal. lia.
  - done.
  - rewrite Hneg, length_take. lia.
Qed.

(** ** The shape of the year-by-month matrix *)

Lemma Month_labels_sorted df : StronglySorted Z.le (Month_labels df).
Proof. apply StronglySorted_merge_sort; apply _. Qed.

Lemma NoDup_Month_labels df : NoDup (Month_labels df).
Proof.
  unfold Month_labels. rewrite merge_sort_Permutation. apply NoDup_remove_dups.
Qed.

Lemma elem_of_Month_labels df m :
  m ∈ Month_labels df ↔ ∃ y s, (y, m, s) ∈ df.
Proof.
  unfold Month_labels.
  rewrite merge_sort_Permutation, elem_of_remove_dups, list_elem_of_fmap.
  split.
  - intros ([[y m'] s] & -> & Hin). eauto.
  - intros (y & s & Hin). by exists (y, m, s).
Qed.

Lemma yoy_pivot_year_columns df :
  year_columns (yoy_pivot df) = year_columns (pivot_table df).
Proof.
  unfold yoy_pivot. destruct (reverse _) as [|? [|? ?]]; done.
Qed.

Lemma yoy_pivot_growth_length df :
  ∃ col, YoY_Growth (yoy_pivot df) = Some col
         ∧ length col = length (Month_labels df).
Proof.
  unfold yoy_pivot. rewrite sorted_pivot_columns.
  destruct (reverse (Year_labels df)) as [|latest [|prior rest]] eqn:E; simpl.
  - eexists. split; [done|]. apply length_replicate.
  - eexists. split; [done|]. apply length_replicate.
  - assert (latest ∈ Year_labels df ∧ prior ∈ Year_labels df) as [Hl Hp].
    { rewrite <-(reverse_involutive (Year_labels df)), E.
      rewrite !elem_of_reverse, !elem_of_cons. tauto. }
    rewrite !getitem_pivot_table by done. rewrite zip_with_fmap_same.
    eexists. split; [done|]. apply length_fmap.
Qed.

(** X10.  The matrix that [yoy_pivot] returns, for any table of yearly
    rows: its index holds the months of the table and its year columns the
    years, each once and in ascending order; every year column and the
    growth column has one cell for every month; and the cell of a year
    column is the sum of the rows of that month and year, or not-a-number
    when there is no such row. *)
Theorem yoy_pivot_shape (df : list (Z * Z * Qc)) :
  let p := yoy_pivot df in
  StronglySorted Z.lt (index p)
  ∧ (∀ m, m ∈ index p ↔ ∃ y s, (y, m, s) ∈ df)
  ∧ StronglySorted Z.lt (year_columns p).*1
  ∧ (∀ y, y ∈ (year_columns p).*1 ↔ ∃ m s, (y, m, s) ∈ df)
  ∧ (∀ y col, (y, col) ∈ year_columns p →
       length col = length (index p)
       ∧ ∀ i m, index p !! i = Some m → col !! i = Some (pivot_cell df m y))
  ∧ (∃ col, YoY_Growth p = Some col ∧ length col = length (index p)).
Proof.
  intros p. unfold p. rewrite yoy_pivot_index, yoy_pivot_year_columns.
  assert (∀ l, StronglySorted Z.le l → NoDup l → StronglySorted Z.lt l) as Hlt.
  { intros l Hs Hnd. apply (StronglySorted_NoDup_strict _ _ Hs) in Hnd.
    eapply StronglySorted_fmap with (f:=id) in Hnd.
    - by rewrite list_fmap_id in Hnd.
    - simpl. lia. }
  split; [|split; [|split; [|split; [|split]]]].
  - apply Hlt; [apply Month_labels_sorted|apply NoDup_Month_labels].
  - apply elem_of_Month_labels.
  - rewrite pivot_table_columns.
    apply Hlt; [apply Year_labels_sorted|apply NoDup_Year_labels].
  - intros y. rewrite pivot_table_columns. apply elem_of_Year_labels.
  - intros y col Hin. simpl in Hin.
    apply list_elem_of_fmap in Hin as (y' & [= -> ->] & _).
    split; [apply length_fmap|].
    intros i m Hm. by rewrite list_lookup_fmap, Hm.
  - apply yoy_pivot_growth_length.
Qed.

Lemma forallb_is_null col :
  forallb is_null col = true ↔ ∀ c, c ∈ col → is_null c = true.
Proof.
  induction col as [|c col IH]; simpl.
  - split; [|done]. intros _ c Hc. inversion Hc.
  - rewrite andb_true_iff, IH. split.
    + intros [Hc Hcol] c' [->|Hc']%elem_of_cons; auto.
    + intros Hall. split; [apply Hall; left|].
      intros c' Hc'. apply Hall. by right.
Qed.

(** X11.  The guards on the growth column never fire.  For every table of
    yearly rows [yoy_pivot] returns a matrix that has the growth column,
    so [plot_yoy_growth] never returns at its guard but hands a bar for
    every month to the drawing calls, and [generate_insights] never
    returns a report without the growth block: it raises exactly when no
    cell of the growth column has a value, which is always so with fewer
    than two years, and otherwise returns a report that ends with the
    growth block and the recommended actions. *)
Theorem growth_chart_never_skipped (df : list (Z * Z * Qc)) (path : string)
    (draws : list (Z * option float) → bool)
    (kpis : KPIs) (region_df top_customers_df : list (string * Qc)) :
  ∃ col,
    YoY_Growth (yoy_pivot df) = Some col
    ∧ length col = length (index (yoy_pivot df))
    ∧ plot_yoy_growth draws (yoy_pivot df) path
      = (if draws (zip (index (yoy_pivot df)) col)
         then Saved {| fig_path := path;
                       fig_bars := zip (index (yoy_pivot df)) col |}
         else PlotError)
    ∧ plot_yoy_growth draws (yoy_pivot df) path ≠ Skipped
    ∧ (generate_insights kpis region_df top_customers_df (yoy_pivot df) = Raises
       ↔ ∀ c, c ∈ col → is_null c = true)
    ∧ (∀ report,
         generate_insights kpis region_df top_customers_df (yoy_pivot df)
         = Returns report →
         ∃ before,
           report = (before ++ [YoYOverview (zip (index (yoy_pivot df)) col);
                                RecommendedActions])%list)
    ∧ ((length (Year_labels df) < 2)%nat →
       generate_insights kpis region_df top_customers_df (yoy_pivot df) = Raises).
Proof.
  destruct (yoy_pivot_growth_length df) as (col & Hcol & Hlen).
  exists col. split; [done|]. split; [by rewrite yoy_pivot_index|].
  assert (plot_yoy_growth draws (yoy_pivot df) path
          = (if draws (zip (index (yoy_pivot df)) col)
             then Saved {| fig_path := path;
                           fig_bars := zip (index (yoy_pivot df)) col |}
             else PlotError)) as Hplot
    by (unfold plot_yoy_growth; by rewrite Hcol).
  split; [done|]. split; [rewrite Hplot; by destruct (draws _)|].
  unfold generate_insights. rewrite Hcol. cbv zeta.
  split; [|split].
  - rewrite <-forallb_is_null. by destruct (forallb is_null col).
  - intros report. destruct (forallb is_null col); [done|].
    intros [= <-].
    exists ([Summary kpis]
            ++ match region_df with r :: _ => [TopRegion r] | [] => [] end
            ++ match top_customers_df with c :: _ => [TopCustomer c] | [] => [] end)%list.
    done.
  - intros Hlt. rewrite (yoy_pivot_fewer_than_two_years df Hlt) in Hcol.
    injection Hcol as <-. by rewrite forallb_is_null_replicate.
Qed.

(** ** The cells of the matrix, from the rows of the table *)

Lemma filter_none {A} (P : A → Prop) `{∀ x, Decision (P x)} (l : list A) :
  (∀ x, x ∈ l → ¬ P x) → filter P l = [].
Proof.
  induction l as [|x l IH]; intros HP; [done|].
  rewrite filter_cons_False by (apply HP; left).
  apply IH. intros y Hy. apply HP. by right.
Qed.

Lemma filter_label_present {K} `{EqDecision K} (l : list (K * Qc)) k s :
  NoDup l.*1 → (k, s) ∈ l → filter (λ x, x.1 = k) l = [(k, s)].
Proof.
  induction l as [|[k' s'] l IH]; intros Hnd Hin; [inversion Hin|].
  rewrite fmap_cons in Hnd. apply NoDup_cons in Hnd as [Hk' Hnd].
  rewrite filter_cons. simpl.
  apply elem_of_cons in Hin as [[= <- <-]|Hin].
  - rewrite decide_True by done. f_equal.
    apply filter_none. intros [k0 s0] Hin0 Hk0. simpl in Hk0. subst k0.
    apply Hk'. apply list_elem_of_fmap. by exists (k, s0).
  - rewrite decide_False; [by apply IH|].
    intros ->. apply Hk'. apply list_elem_of_fmap. by exists (k, s).
Qed.

Lemma filter_label_absent {K} `{EqDecision K} (l : list (K * Qc)) k :
  k ∉ l.*1 → filter (λ x, x.1 = k) l = [].
Proof.
  intros Hk. apply filter_none. intros [k0 s0] Hin Hk0.
  simpl in Hk0. subst k0. apply Hk. apply list_elem_of_fmap. by exists (k, s0).
Qed.

Lemma pivot_cell_present (df : DataFrame) (y m : Z) r :
  r ∈ df → Year_Month r = Some (y, m) →
  pivot_cell (yearly_trend df) m y
  = Finite (sum_Sales (filter (λ r, Year_Month r = Some (y, m)) df)).
Proof.
  intros Hr Hk. unfold yearly_trend.
  rewrite sort_by_label_groupby_sum by apply _. unfold pivot_cell.
  rewrite (filter_label_present _ (y, m)
             (sum_Sales (filter (λ r, Year_Month r = Some (y, m)) df))).
  - simpl. by rewrite Qcplus_0_r.
  - rewrite groupby_sum_labels. apply NoDup_group_keys.
  - apply elem_of_groupby_sum; eauto.
Qed.

Lemma pivot_cell_absent (df : DataFrame) (y m : Z) :
  (∀ r, r ∈ df → Year_Month r ≠ Some (y, m)) →
  pivot_cell (yearly_trend df) m y = NotANumber.
Proof.
  intros Hnone. unfold yearly_trend.
  rewrite sort_by_label_groupby_sum by apply _. unfold pivot_cell.
  rewrite filter_label_absent; [done|].
  rewrite groupby_sum_labels, elem_of_group_keys.
  intros (r & Hr & Hk). by apply (Hnone r).
Qed.

(** X12.  A cell of the matrix built from [yearly_trend]: for a month and
    a year that some row of the table has, it is the sum of the sales of
    the rows of that month and year; for a combination that no row has, it
    is not-a-number. *)
Theorem pivot_cell_of_yearly_trend (df : DataFrame) (y m : Z) :
  ((∃ r, r ∈ df ∧ Year_Month r = Some (y, m)) →
   pivot_cell (yearly_trend df) m y
   = Finite (sum_Sales (filter (λ r, Year_Month r = Some (y, m)) df)))
  ∧ ((∀ r, r ∈ df → Year_Month r ≠ Some (y, m)) →
     pivot_cell (yearly_trend df) m y = NotANumber).
Proof.
  split.
  - intros (r & Hr & Hk). by eapply pivot_cell_present.
  - apply pivot_cell_absent.
Qed.

(** X17.  From the rows to the growth cell.  When [latest] and [prior]
    are the two most recent years of a table, a month has rows in both and
    the sales of the month in the prior year do not add up to zero, the
    matrix of [yoy_pivot] on [yearly_trend] has a row for the month whose
    growth cell is [(S latest - S prior) / S prior * 100], [S y] being the
    sum of the sales of the month in the year [y]. *)
Theorem yoy_growth_from_rows (df : DataFrame) (latest prior m : Z) :
  (∃ r, r ∈ df ∧ Year_Month r = Some (latest, m)) →
  (∃ r, r ∈ df ∧ Year_Month r = Some (prior, m)) →
  prior < latest →
  (∀ r y m', r ∈ df → Year_Month r = Some (y, m') →
             y ≤ latest ∧ (y < latest → y ≤ prior)) →
  sum_Sales (filter (λ r, Year_Month r = Some (prior, m)) df) ≠ 0%Qc →
  ∃ i col,
    index (yoy_pivot (yearly_trend df)) !! i = Some m
    ∧ YoY_Growth (yoy_pivot (yearly_trend df)) = Some col
    ∧ col !! i
      = Some (Some (Finite
          ((sum_Sales (filter (λ r, Year_Month r = Some (latest, m)) df)
            - sum_Sales (filter (λ r, Year_Month r = Some (prior, m)) df))
           / sum_Sales (filter (λ r, Year_Month r = Some (prior, m)) df)
           * Qc_of_Z 100)%Qc)).
Proof.
  intros (rl & Hrl & Hkl) (rp & Hrp & Hkp) Hlt Hmax Hnz.
  assert (∀ y, y ∈ Year_labels (yearly_trend df) ↔
               ∃ r m', r ∈ df ∧ Year_Month r = Some (y, m')) as Hyears.
  { intros y. rewrite elem_of_Year_labels. split.
    - intros (m' & s & [(r & Hr & Hk) _]%elem_of_yearly_trend). eauto.
    - intros (r & m' & Hr & Hk). exists m'. eexists.
      apply elem_of_yearly_trend. eauto. }
  destruct (reverse_sorted_latest_prior (Year_labels (yearly_trend df))
              latest prior) as [rest Hrev];
    auto using Year_labels_sorted, NoDup_Year_labels.
  { apply Hyears. eauto. }
  { apply Hyears. eauto. }
  { intros y (r & m' & Hr & Hk)%Hyears. by apply (Hmax r y m'). }
  { intros y (r & m' & Hr & Hk)%Hyears. by apply (Hmax r y m'). }
  assert (m ∈ Month_labels (yearly_trend df)) as Hm.
  { apply elem_of_Month_labels. exists latest. eexists.
    apply elem_of_yearly_trend. eauto. }
  apply list_elem_of_lookup_1 in Hm as [i Hi].
  rewrite yoy_pivot_index. unfold yoy_pivot.
  rewrite sorted_pivot_columns, Hrev. simpl.
  rewrite !getitem_pivot_table by (apply Hyears; eauto).
  rewrite zip_with_fmap_same.
  exists i. eexists. split; [done|]. split; [done|].
  rewrite list_lookup_fmap, Hi. simpl.
  rewrite (pivot_cell_present df latest m rl), (pivot_cell_present df prior m rp)
    by done.
  by rewrite growth_finite.
Qed.

(** The three rows of the example: January of 2023 and of 2024. *)
Lemma yoy_growth_from_three_rows :
  let df := clean_data whole_number iso_date three_rows in
  ∃ i col,
    index (yoy_pivot (yearly_trend df)) !! i = Some 1
    ∧ YoY_Growth (yoy_pivot (yearly_trend df)) = Some col
    ∧ col !! i
      = Some (Some (Finite
          ((sum_Sales (filter (λ r, Year_Month r = Some (2024, 1)%Z) df)
            - sum_Sales (filter (λ r, Year_Month r = Some (2023, 1)%Z) df))
           / sum_Sales (filter (λ r, Year_Month r = Some (2023, 1)%Z) df)
           * Qc_of_Z 100)%Qc)).
Proof.
  assert (clean_data whole_number iso_date three_rows
          = [cleaned_row whole_number iso_date
               (raw_row "2023-01-05" "100" "East" "C1" "Alice");
             cleaned_row whole_number iso_date
               (raw_row "2024-01-05" "300" "East" "C1" "Alice")]) as Hc
    by (vm_compute; reflexivity).
  apply (yoy_growth_from_rows (clean_data whole_number iso_date three_rows)
           2024 2023 1).
  - eexists. rewrite Hc. split; [right; left|]. reflexivity.
  - eexists. rewrite Hc. split; [left|]. reflexivity.
  - lia.
  - intros r y m' Hr Hk. rewrite Hc in Hr.
    apply elem_of_cons in Hr as [->|Hr];
      [|apply elem_of_cons in Hr as [->|Hr]; [|inversion Hr]];
      vm_compute in Hk; injection Hk as <- <-; lia.
  - intros H. apply (f_equal this) in H. vm_compute in H. discriminate H.
Defined.

(** ** Trimming twice *)

Lemma lstrip_id s :
  (∀ c, first_char s = Some c → py_isspace c = false) → lstrip s = s.
Proof.
  destruct s as [|c s]; [done|]. simpl. intros Hc.
  by rewrite (Hc c eq_refl).
Qed.

Lemma rstrip_id s :
  (∀ c, last_char s = Some c → py_isspace c = false) → rstrip s = s.
Proof.
  induction s as [|c s IH]; [done|]. intros Hlast.
  destruct s as [|c' s'].
  - simpl. by rewrite (Hlast c eq_refl).
  - change (rstrip (String c (String c' s')))
      with (match rstrip (String c' s') with
            | EmptyString => if py_isspace c then EmptyString else String c EmptyString
            | t => String c t
            end).
    rewrite IH; [done|]. intros c0 Hc0. by apply Hlast.
Qed.

Lemma strip_id s :
  (∀ c, first_char s = Some c → py_isspace c = false) →
  (∀ c, last_char s = Some c → py_isspace c = false) →
  strip s = s.
Proof.
  intros Hfirst Hlast. unfold strip. rewrite (lstrip_id s Hfirst).
  by apply rstrip_id.
Qed.

Lemma strip_strip s : strip (strip s) = strip s.
Proof.
  destruct (strip_spec s) as (_ & Hfirst & Hlast). by apply strip_id.
Qed.

(** ** What the loader prints and returns *)

Section LoaderMore.
Variable read_csv : string → string → read_result.

Abbreviation load_from := (load_from read_csv).
Abbreviation load_data := (load_data read_csv).

Lemma load_from_messages path encs :
  ∃ pre rest,
    encs = (pre ++ rest)%list
    ∧ (∀ e, e ∈ pre → read_csv path e = UnicodeDecodeError)
    ∧ match rest with
      | [] =>
          load_from path encs
          = ((λ e, "Encoding failed: " +:+ e +:+ ". Trying next...") <$> pre,
             ValueError "Unable to read the CSV. Try re-saving as UTF-8.")
      | enc :: _ =>
          match read_csv path enc with
          | Parsed df =>
              load_from path encs
              = ((((λ e, "Encoding failed: " +:+ e +:+ ". Trying next...") <$> pre)
                  ++ ["File loaded using encoding: " +:+ enc])%list,
                 Returned (trimmed df))
          | UnicodeDecodeError => False
          | OtherError err =>
              load_from path encs
              = ((λ e, "Encoding failed: " +:+ e +:+ ". Trying next...") <$> pre,
                 Propagated err)
          end
      end.
Proof.
  induction encs as [|enc encs (pre & rest & -> & Hpre & Hrest)].
  - exists [], []. split; [done|]. split; [|done]. intros e He. inversion He.
  - destruct (read_csv path enc) as [df| |err] eqn:Hread.
    + exists [], (enc :: (pre ++ rest)%list). split; [done|].
      split; [intros e He; inversion He|]. rewrite Hread. simpl. by rewrite Hread.
    + exists (enc :: pre), rest. split; [done|]. split.
      * intros e [->|He]%elem_of_cons; auto.
      * simpl. rewrite Hread.
        destruct rest as [|enc' rest']; [by rewrite Hrest|].
        destruct (read_csv path enc'); [by rewrite Hrest|done|by rewrite Hrest].
    + exists [], (enc :: (pre ++ rest)%list). split; [done|].
      split; [intros e He; inversion He|]. rewrite Hread. simpl. by rewrite Hread.
Qed.

(** X13.  The lines [load_data] prints follow its attempts: one line
    "Encoding failed: ..." for every encoding tried before the last one,
    each of which ended in a decoding error, in the order tried, and then,
    only when a table is returned, one line "File loaded using encoding:
    ..." that names the encoding which parsed.  When the function raises,
    by its own error after three decoding errors or by an error of
    [read_csv], no such line is printed. *)
Theorem load_data_messages (path : string) :
  let failed := λ e, "Encoding failed: " +:+ e +:+ ". Trying next..." in
  (∀ df', (load_data path).2 = Returned df' →
     ∃ pre enc post df,
       encodings = (pre ++ enc :: post)%list
       ∧ (∀ e, e ∈ pre → read_csv path e = UnicodeDecodeError)
       ∧ read_csv path enc = Parsed df ∧ df' = trimmed df
       ∧ (load_data path).1
         = ((failed <$> pre) ++ ["File loaded using encoding: " +:+ enc])%list)
  ∧ (∀ msg, (load_data path).2 = ValueError msg →
       (∀ e, e ∈ encodings → read_csv path e = UnicodeDecodeError)
       ∧ (load_data path).1 = failed <$> encodings)
  ∧ (∀ err, (load_data path).2 = Propagated err →
       ∃ pre enc post,
         encodings = (pre ++ enc :: post)%list
         ∧ (∀ e, e ∈ pre → read_csv path e = UnicodeDecodeError)
         ∧ read_csv path enc = OtherError err
         ∧ (load_data path).1 = failed <$> pre).
Proof.
  intros failed. unfold load_data.
  destruct (load_from_messages path encodings)
    as (pre & rest & Henc & Hpre & Hrest).
  rewrite Henc in *. clear Henc.
  destruct rest as [|enc post].
  - rewrite Hrest. simpl. split; [done|]. split; [|done].
    intros _ _. by rewrite app_nil_r.
  - destruct (read_csv path enc) as [df| |err] eqn:Hread; [| done |];
      rewrite Hrest; simpl; (split; [|split]); try done.
    + intros df' [= <-]. by exists pre, enc, post, df.
    + intros err' [= <-]. by exists pre, enc, post.
Qed.

(** X14.  The table [load_data] returns has as many columns as the parsed
    one, the same cells under them, and names that a second trimming
    would leave as they are; a name without whitespace at its ends comes
    through unchanged. *)
Theorem load_data_names_trimmed (path : string) :
  (∀ s, strip (strip s) = strip s)
  ∧ (∀ s, (∀ c, first_char s = Some c → py_isspace c = false) →
          (∀ c, last_char s = Some c → py_isspace c = false) → strip s = s)
  ∧ ∀ df', (load_data path).2 = Returned df' →
      (∀ name, name ∈ columns df' → strip name = name)
      ∧ ∃ enc df, read_csv path enc = Parsed df
                  ∧ length (columns df') = length (columns df)
                  ∧ body df' = body df
                  ∧ ∀ i name, columns df !! i = Some name →
                              columns df' !! i = Some (strip name).
Proof.
  split; [apply strip_strip|]. split; [apply strip_id|].
  intros df' Hret. unfold load_data in Hret.
  apply load_from_Returned in Hret as (pre & enc & post & df & _ & _ & Hp & ->).
  split.
  - simpl. intros name (s & -> & _)%list_elem_of_fmap. apply strip_strip.
  - exists enc, df. split; [done|]. split; [apply length_fmap|].
    split; [done|]. intros i name Hi. simpl.
    by rewrite list_lookup_fmap, Hi.
Qed.
End LoaderMore.

(** ** A table without a usable amount *)

Section NothingLeft.
Variable parse_number : string → option Qc.
Variable parse_datetime : string → option Timestamp.

Abbreviation to_numeric := (to_numeric parse_number).
Abbreviation clean_data := (clean_data parse_number parse_datetime).

(** X15.  The cleaned table is empty exactly when no amount of the input
    parses (an empty input included).  The KPIs are then zero with a
    not-a-number average, every aggregate view is empty, and the matrix
    has no month, no year and an empty growth column.  That column is
    there, so [plot_yoy_growth] is not skipped but hands no bar to the
    drawing calls, and [generate_insights] enters the growth block and
    raises: no report is returned. *)
Theorem nothing_left_after_cleaning (raw : DataFrame) (path : string)
    (draws : list (Z * option float) → bool) :
  (clean_data raw = [] ↔ ∀ r, r ∈ raw → to_numeric (Sales r) = NaN)
  ∧ (clean_data raw = [] →
     let df := clean_data raw in
     let kpis := compute_kpis df in
     let yoy_df := yoy_pivot (yearly_trend df) in
     kpis = {| Total_Sales := 0%Qc; Total_Orders := 0; Unique_Customers := 0;
               Average_Order_Value := NotANumber |}
     ∧ monthly_trend df = [] ∧ revenue_by_region df = []
     ∧ top_customers df default_n = [] ∧ yearly_trend df = []
     ∧ yoy_df = {| index := []; year_columns := []; YoY_Growth := Some [] |}
     ∧ plot_yoy_growth draws yoy_df path
       = (if draws [] then Saved {| fig_path := path; fig_bars := [] |}
          else PlotError)
     ∧ generate_insights kpis (revenue_by_region df)
                         (top_customers df default_n) yoy_df
       = Raises).
Proof.
  split.
  - split.
    + intros Hempty r Hr.
      destruct (to_numeric (Sales r)) as [|s|q] eqn:E; [done|..].
      * by apply to_numeric_not_text in E.
      * assert (cleaned_row parse_number parse_datetime r ∈ clean_data raw) as Hin.
        { apply elem_of_clean_data. exists r. by rewrite E. }
        rewrite Hempty in Hin. inversion Hin.
    + intros Hall. rewrite clean_data_eq.
      rewrite filter_none; [done|].
      intros r Hr. by rewrite (Hall r Hr).
  - intros ->. repeat split.
Qed.
End NothingLeft.

(** ** The order of the rows and the labels of the views *)

Lemma remove_dups_Permutation {A} `{EqDecision A} (l l' : list A) :
  l ≡ₚ l' → remove_dups l ≡ₚ remove_dups l'.
Proof.
  intros Hp. apply NoDup_Permutation; [apply NoDup_remove_dups..|].
  intros x. by rewrite !elem_of_remove_dups, Hp.
Qed.

Section OrderOfGroups.
Context {K : Type} `{EqDecision K}.
Variable le : relation K.
Context `{∀ x y, Decision (le x y)}
        `{!Transitive le} `{!Total le} `{!AntiSymm (=) le}.
Variable key : row → option K.

(** Two tables with the same rows have the same group labels, in the same
    order. *)
Lemma group_keys_Permutation_eq df df' :
  df ≡ₚ df' → group_keys le key df = group_keys le key df'.
Proof.
  intros Hp.
  apply (StronglySorted_unique le); [by apply group_keys_sorted..|].
  rewrite !group_keys_Permutation. apply remove_dups_Permutation.
  by rewrite Hp.
Qed.
End OrderOfGroups.

Lemma yearly_trend_labels df :
  (yearly_trend df).*1 = group_keys year_month_le Year_Month df.
Proof.
  unfold yearly_trend. rewrite sort_by_label_groupby_sum by apply _.
  apply groupby_sum_labels.
Qed.

Lemma monthly_trend_labels_eq df :
  (monthly_trend df).*1 = group_keys String.le Order_Month df.
Proof.
  unfold monthly_trend. rewrite sort_by_label_groupby_sum by apply _.
  apply groupby_sum_labels.
Qed.

Lemma Month_labels_from_labels (t : list (Z * Z * Qc)) :
  Month_labels t = merge_sort Z.le (remove_dups (snd <$> t.*1)).
Proof. unfold Month_labels. by rewrite <-list_fmap_compose. Qed.

Lemma Year_labels_from_labels (t : list (Z * Z * Qc)) :
  Year_labels t = merge_sort Z.le (remove_dups (fst <$> t.*1)).
Proof. unfold Year_labels. by rewrite <-list_fmap_compose. Qed.

(** X16.  The labels of the views do not depend on the order of the rows.
    Two tables that hold the same rows in a different order have the same
    order and customer counts, the same keys in the same order in
    [monthly_trend] and in [yearly_trend], the same month index and year
    columns in the matrix, the same regions and customer names in the
    rankings, and under every label the same rows to sum. *)
Theorem row_order_does_not_matter (df df' : DataFrame) :
  df ≡ₚ df' →
  Total_Orders (compute_kpis df) = Total_Orders (compute_kpis df')
  ∧ Unique_Customers (compute_kpis df) = Unique_Customers (compute_kpis df')
  ∧ (monthly_trend df).*1 = (monthly_trend df').*1
  ∧ (yearly_trend df).*1 = (yearly_trend df').*1
  ∧ index (yoy_pivot (yearly_trend df)) = index (yoy_pivot (yearly_trend df'))
  ∧ (year_columns (yoy_pivot (yearly_trend df))).*1
    = (year_columns (yoy_pivot (yearly_trend df'))).*1
  ∧ (revenue_by_region df).*1 ≡ₚ (revenue_by_region df').*1
  ∧ (∀ n : nat, n = nunique (Customer_Name <$> df) →
       (top_customers df (Z.of_nat n)).*1 ≡ₚ (top_customers df' (Z.of_nat n)).*1)
  ∧ (∀ k, filter (λ r, Order_Month r = Some k) df
          ≡ₚ filter (λ r, Order_Month r = Some k) df')
  ∧ (∀ ym, filter (λ r, Year_Month r = Some ym) df
           ≡ₚ filter (λ r, Year_Month r = Some ym) df')
  ∧ (∀ g, filter (λ r, Region r = Some g) df
          ≡ₚ filter (λ r, Region r = Some g) df')
  ∧ (∀ c, filter (λ r, Customer_Name r = Some c) df
          ≡ₚ filter (λ r, Customer_Name r = Some c) df').
Proof.
  intros Hp.
  assert ((yearly_trend df).*1 = (yearly_trend df').*1) as Hy.
  { rewrite !yearly_trend_labels. by apply group_keys_Permutation_eq; try apply _. }
  assert (∀ key : row → option string,
            (sort_by_Sales_desc (groupby_sum String.le key df)).*1
            ≡ₚ (sort_by_Sales_desc (groupby_sum String.le key df')).*1) as Hrank.
  { intros key. rewrite !ranking_labels.
    by rewrite (group_keys_Permutation_eq String.le key df df' Hp). }
  split; [simpl; by rewrite Hp|]. split.
  { simpl. unfold nunique. rewrite !omap_id_fmap.
    apply Permutation_length, remove_dups_Permutation. by rewrite Hp. }
  split.
  { rewrite !monthly_trend_labels_eq.
    by apply group_keys_Permutation_eq; try apply _. }
  split; [done|]. split.
  { rewrite !yoy_pivot_index, !Month_labels_from_labels. by rewrite Hy. }
  split.
  { rewrite !yoy_pivot_year_columns, !pivot_table_columns,
      !Year_labels_from_labels. by rewrite Hy. }
  split; [apply Hrank|]. split.
  { intros n Hn. unfold top_customers. rewrite !head_of_nat.
    rewrite !take_ge; [apply Hrank|..].
    - rewrite length_ranking, Hn. unfold nunique. rewrite !omap_id_fmap.
      apply Nat.eq_le_incl, Permutation_length, remove_dups_Permutation.
      by rewrite Hp.
    - by rewrite length_ranking, Hn. }
  repeat split; intros ?; by rewrite Hp.
Qed.

(** The cleaned rows of the example, and the same rows backwards. *)
Lemma row_order_does_not_matter_three_rows :
  let df := clean_data whole_number iso_date three_rows in
  let df' := reverse df in
  Total_Orders (compute_kpis df) = Total_Orders (compute_kpis df')
  ∧ Unique_Customers (compute_kpis df) = Unique_Customers (compute_kpis df')
  ∧ (monthly_trend df).*1 = (monthly_trend df').*1
  ∧ (yearly_trend df).*1 = (yearly_trend df').*1
  ∧ index (yoy_pivot (yearly_trend df)) = index (yoy_pivot (yearly_trend df'))
  ∧ (year_columns (yoy_pivot (yearly_trend df))).*1
    = (year_columns (yoy_pivot (yearly_trend df'))).*1
  ∧ (revenue_by_region df).*1 ≡ₚ (revenue_by_region df').*1
  ∧ (∀ n : nat, n = nunique (Customer_Name <$> df) →
       (top_customers df (Z.of_nat n)).*1 ≡ₚ (top_customers df' (Z.of_nat n)).*1)
  ∧ (∀ k, filter (λ r, Order_Month r = Some k) df
          ≡ₚ filter (λ r, Order_Month r = Some k) df')
  ∧ (∀ ym, filter (λ r, Year_Month r = Some ym) df
           ≡ₚ filter (λ r, Year_Month r = Some ym) df')
  ∧ (∀ g, filter (λ r, Region r = Some g) df
          ≡ₚ filter (λ r, Region r = Some g) df')
  ∧ (∀ c, filter (λ r, Customer_Name r = Some c) df
          ≡ₚ filter (λ r, Customer_Name r = Some c) df').
Proof.
  intros df df'. apply (row_order_does_not_matter df df').
  symmetry. apply reverse_Permutation.
Defined.
